(** * A shallow embedding of the CAS expression engine ([cas.py])

    The Python module represents mathematical expressions as trees of
    [Expr] objects and offers construction through overloaded operators,
    symbolic differentiation, a simplification pass and a factor query.

    The values of a [Const] are Python [int]s in the first part, i.e.
    unbounded integers, which [Z] represents exactly; what is proved there
    is about trees whose constants carry such values.  The module [Num]
    follows the same code with [int] and [float] values, to show where
    the laws that hold for integers stop; [complex] values are outside. *)

From Stdlib Require Import ZArith List String Bool Lia FinFun DecimalString Floats.
Import ListNotations.
Open Scope Z_scope.

(* ================================================================= *)
(** * Node model *)
(* ================================================================= *)

(** One constructor per class of [cas.py].  [Add] and [Mul] accept any
    number of arguments; the constructors of [Div], [Pow], [Neg] and [Func]
    assert their arity, which the constructor signatures encode here.
    A [Const] carries [value] and [name] in the order of its [__init__]. *)
Unset Elimination Schemes.
Inductive Expr : Type :=
| Var (name : string)
| Const (value : option Z) (name : option string)
| Add (arguments : list Expr)
| Mul (arguments : list Expr)
| Div (numerator denominator : Expr)
| Pow (base exponent : Expr)
| Neg (argument : Expr)
| Func (name : string) (argument : Expr)
| Sin (argument : Expr)
| Cos (argument : Expr)
| Exp (argument : Expr)
| Log (argument : Expr).
Set Elimination Schemes.

(** Induction over the tree, with the hypothesis available for every
    element of an argument list. *)
Section Expr_induction.
Variable P : Expr -> Prop.
Hypothesis HVar : forall n, P (Var n).
Hypothesis HConst : forall v n, P (Const v n).
Hypothesis HAdd : forall l, Forall P l -> P (Add l).
Hypothesis HMul : forall l, Forall P l -> P (Mul l).
Hypothesis HDiv : forall a b, P a -> P b -> P (Div a b).
Hypothesis HPow : forall a b, P a -> P b -> P (Pow a b).
Hypothesis HNeg : forall a, P a -> P (Neg a).
Hypothesis HFunc : forall n a, P a -> P (Func n a).
Hypothesis HSin : forall a, P a -> P (Sin a).
Hypothesis HCos : forall a, P a -> P (Cos a).
Hypothesis HExp : forall a, P a -> P (Exp a).
Hypothesis HLog : forall a, P a -> P (Log a).

Fixpoint Expr_ind (e : Expr) : P e :=
  let all :=
    fix all (l : list Expr) : Forall P l :=
      match l with
      | [] => Forall_nil P
      | x :: l' => Forall_cons x (Expr_ind x) (all l')
      end in
  match e with
  | Var n => HVar n
  | Const v n => HConst v n
  | Add l => HAdd l (all l)
  | Mul l => HMul l (all l)
  | Div a b => HDiv a b (Expr_ind a) (Expr_ind b)
  | Pow a b => HPow a b (Expr_ind a) (Expr_ind b)
  | Neg a => HNeg a (Expr_ind a)
  | Func n a => HFunc n a (Expr_ind a)
  | Sin a => HSin a (Expr_ind a)
  | Cos a => HCos a (Expr_ind a)
  | Exp a => HExp a (Expr_ind a)
  | Log a => HLog a (Expr_ind a)
  end.
End Expr_induction.

(** [self.description], the string handed to [Expr.__init__]. *)
Definition description (e : Expr) : string :=
  match e with
  | Var _ => "var"
  | Const _ _ => "const"
  | Add _ => "+"
  | Mul _ => "*"
  | Div _ _ => "/"
  | Pow _ _ => "^"
  | Neg _ => "neg"
  | Func name _ => name
  | Sin _ => "sin"
  | Cos _ => "cos"
  | Exp _ => "exp"
  | Log _ => "log"
  end%string.

(** [self.arguments], the tuple of children. *)
Definition arguments (e : Expr) : list Expr :=
  match e with
  | Var _ | Const _ _ => []
  | Add l | Mul l => l
  | Div a b | Pow a b => [a; b]
  | Neg a | Func _ a | Sin a | Cos a | Exp a | Log a => [a]
  end.

(** [Const.__init__] asserts [name != None or value != None]. *)
Definition Const_init_ok (value : option Z) (name : option string) : bool :=
  match value, name with
  | None, None => false
  | _, _ => true
  end.

(** What a constructor or an operator may receive: a node or a number. *)
Inductive operand : Type :=
| Node (e : Expr)
| Num (n : Z).

(** [arg if isinstance(arg, Expr) else Const(arg)] of [Expr.__init__]. *)
Definition promote (arg : operand) : Expr :=
  match arg with
  | Node e => e
  | Num n => Const (Some n) None
  end.

(** The class constructors as Python calls them, with the promotion of
    [Expr.__init__] applied to every argument. *)
Module New.
Definition Add (args : list operand) : Expr := Add (map promote args).
Definition Mul (args : list operand) : Expr := Mul (map promote args).
Definition Div (a b : operand) : Expr := Div (promote a) (promote b).
Definition Pow (a b : operand) : Expr := Pow (promote a) (promote b).
Definition Neg (a : operand) : Expr := Neg (promote a).
Definition Func (name : string) (a : operand) : Expr := Func name (promote a).
Definition Const (value : Z) : Expr := Const (Some value) None.
End New.

(* ================================================================= *)
(** * Simplification *)
(* ================================================================= *)

(** The loop state of [Add.simplified] and [Mul.simplified]: the list
    [args] and the accumulator [const]. *)
Definition acc : Type := (list Expr * Z)%type.

(** Body of the inner loop [for secArg in arg.arguments], with [op] the
    update [const += v] or [const *= v]. *)
Definition fold_secArg (op : Z -> Z -> Z) (st : acc) (secArg : Expr) : acc :=
  let '(args, const) := st in
  match secArg with
  | Const value _ =>
      match value with
      | Some v => (args, op const v)
      | None => (args ++ [secArg], const)
      end
  | _ => (args ++ [secArg], const)
  end.

(** Body of the outer loop of [Add.simplified]. *)
Definition Add_fold_arg (st : acc) (arg : Expr) : acc :=
  let '(args, const) := st in
  match arg with
  | Const value _ =>
      match value with
      | Some v => (args, const + v)
      | None => (args ++ [arg], const)
      end
  | Add secArgs => fold_left (fold_secArg Z.add) secArgs st
  | _ => (args ++ [arg], const)
  end.

(** [Add.simplified], given the result of [self.simplifiedArguments()]. *)
Definition Add_simplified (simplifiedArguments : list Expr) : Expr :=
  let '(args, const) := fold_left Add_fold_arg simplifiedArguments ([], 0) in
  let args := if const =? 0 then args else args ++ [Const (Some const) None] in
  match args with
  | [] => Const (Some 0) None
  | [x] => x
  | _ => Add args
  end.

(** Body of the outer loop of [Mul.simplified]. *)
Definition Mul_fold_arg (st : acc) (arg : Expr) : acc :=
  let '(args, const) := st in
  match arg with
  | Const value _ =>
      match value with
      | Some v => (args, const * v)
      | None => (args ++ [arg], const)
      end
  | Mul secArgs => fold_left (fold_secArg Z.mul) secArgs st
  | _ => (args ++ [arg], const)
  end.

(** [Mul.simplified], given the result of [self.simplifiedArguments()]. *)
Definition Mul_simplified (simplifiedArguments : list Expr) : Expr :=
  let '(args, const) := fold_left Mul_fold_arg simplifiedArguments ([], 1) in
  if const =? 0 then Const (Some 0) None
  else
    let args := if const =? 1 then args else args ++ [Const (Some const) None] in
    match args with
    | [] => Const (Some 1) None
    | [x] => x
    | _ => Mul args
    end.

(** [simplified] with its dynamic dispatch: [Add] and [Mul] override it,
    every other class inherits [Expr.simplified], which returns [self].
    [map simplified l] is [self.simplifiedArguments()]. *)
Fixpoint simplified (e : Expr) : Expr :=
  match e with
  | Add l => Add_simplified (map simplified l)
  | Mul l => Mul_simplified (map simplified l)
  | _ => e
  end.

(** [Expr.simplifiedArguments]. *)
Definition simplifiedArguments (e : Expr) : list Expr :=
  map simplified (arguments e).

(** The classes that inherit [Expr.simplified]. *)
Definition inherits_simplified (e : Expr) : bool :=
  match e with
  | Add _ | Mul _ => false
  | _ => true
  end.

(** The node obtained from [e] by replacing each child by its simplified
    form and keeping the class. *)
Definition with_simplified_children (e : Expr) : Expr :=
  match e with
  | Var n => Var n
  | Const v n => Const v n
  | Add l => Add (map simplified l)
  | Mul l => Mul (map simplified l)
  | Div a b => Div (simplified a) (simplified b)
  | Pow a b => Pow (simplified a) (simplified b)
  | Neg a => Neg (simplified a)
  | Func n a => Func n (simplified a)
  | Sin a => Sin (simplified a)
  | Cos a => Cos (simplified a)
  | Exp a => Exp (simplified a)
  | Log a => Log (simplified a)
  end.

(* ================================================================= *)
(** * Equality and hashing *)
(* ================================================================= *)

(** A comparison either returns a boolean or fails on one of the
    [assert isinstance(other, ...)] lines; [None] is that failure. *)
Definition is_Func (e : Expr) : bool :=
  match e with Func _ _ => true | _ => false end.

(** The classes [Sin], [Cos], [Exp] and [Log], the proper subclasses of
    [Func]. *)
Definition is_Func_subclass (e : Expr) : bool :=
  match e with Sin _ | Cos _ | Exp _ | Log _ => true | _ => false end.

(** [==] on two tuples of nodes, as the interpreter runs it: the items are
    compared pairwise from the left, a failing comparison fails the whole,
    the first unequal pair answers [False], and when one tuple is exhausted
    the lengths decide.  [cmps] holds, for each item of the left tuple,
    its comparison with a candidate partner. *)
Fixpoint tuple_eq (cmps : list (Expr -> option bool)) (others : list Expr)
  : option bool :=
  match cmps, others with
  | cmp :: cmps', y :: others' =>
      match cmp y with
      | None => None
      | Some false => Some false
      | Some true => tuple_eq cmps' others'
      end
  | [], [] => Some true
  | _, _ => Some false
  end.

(** [Expr.__eq__] once the tuples are compared:
    [self.arguments == other.arguments and self.description == other.description]. *)
Definition Expr_eq (arguments_eq : option bool) (self_description other_description : string)
  : option bool :=
  match arguments_eq with
  | None => None
  | Some false => Some false
  | Some true => Some (String.eqb self_description other_description)
  end.

Definition option_eqb {A : Type} (eqb : A -> A -> bool) (x y : option A) : bool :=
  match x, y with
  | Some a, Some b => eqb a b
  | None, None => true
  | _, _ => false
  end.

(** [Const.__eq__] past its assertion:
    [self.name == other.name and self.value == other.value]. *)
Definition Const_eq (value : option Z) (name : option string)
  (value' : option Z) (name' : option string) : bool :=
  option_eqb String.eqb name name' && option_eqb Z.eqb value value'.

(** The operator [==] on nodes.  [eq_dir false a b] is [a == b] and
    [eq_dir true a b] is [b == a]; the recursion is on [a] in both.

    The interpreter calls the [__eq__] of the left operand, except when
    the class of the right operand is a proper subclass of the class of the
    left one: then the right operand's [__eq__] runs, with the left operand
    as [other].  Among the classes here that is the case of a [Func] on
    the left and a [Sin], [Cos], [Exp] or [Log] on the right.  The method
    that runs is [Var.__eq__], [Const.__eq__] or the inherited
    [Expr.__eq__], by the class of its [self]. *)
Fixpoint eq_dir (flip : bool) (a b : Expr) {struct a} : option bool :=
  let inherited (a_is_self : bool) (children : list Expr) :=
    if a_is_self
    then Expr_eq (tuple_eq (map (eq_dir false) children) (arguments b))
                 (description a) (description b)
    else
      match b with
      | Var _ | Const _ _ => None
      | _ => Expr_eq (tuple_eq (map (eq_dir true) children) (arguments b))
                     (description b) (description a)
      end in
  let a_is_self :=
    if flip then is_Func b && is_Func_subclass a
    else negb (is_Func a && is_Func_subclass b) in
  match a with
  | Var name =>
      match b with
      | Var name' => Some (if flip then String.eqb name' name else String.eqb name name')
      | Const _ _ => None
      | _ => if flip then inherited false [] else None
      end
  | Const value name =>
      match b with
      | Const value' name' =>
          Some (if flip then Const_eq value' name' value name
                else Const_eq value name value' name')
      | Var _ => None
      | _ => if flip then inherited false [] else None
      end
  | Add l | Mul l => inherited a_is_self l
  | Div x y | Pow x y => inherited a_is_self [x; y]
  | Neg x | Func _ x | Sin x | Cos x | Exp x | Log x => inherited a_is_self [x]
  end.

(** [a == b]. *)
Definition eq_op (a b : Expr) : option bool := eq_dir false a b.




(** What [==] looks at: the name of a [Var], the name and value of a
    [Const], and for every other node its description string and its
    children, the class apart. *)
Unset Elimination Schemes.
Inductive shape : Type :=
| SVar (name : string)
| SConst (value : option Z) (name : option string)
| SNode (description : string) (children : list shape).
Set Elimination Schemes.

Fixpoint shape_of (e : Expr) : shape :=
  match e with
  | Var name => SVar name
  | Const value name => SConst value name
  | Add l => SNode "+" (map shape_of l)
  | Mul l => SNode "*" (map shape_of l)
  | Div x y => SNode "/" [shape_of x; shape_of y]
  | Pow x y => SNode "^" [shape_of x; shape_of y]
  | Neg x => SNode "neg" [shape_of x]
  | Func name x => SNode name [shape_of x]
  | Sin x => SNode "sin" [shape_of x]
  | Cos x => SNode "cos" [shape_of x]
  | Exp x => SNode "exp" [shape_of x]
  | Log x => SNode "log" [shape_of x]
  end.

(** The class of a node, the variant tag of the data model. *)
Inductive class : Type :=
| CVar | CConst | CAdd | CMul | CDiv | CPow | CNeg | CFunc | CSin | CCos | CExp | CLog.

Definition class_of (e : Expr) : class :=
  match e with
  | Var _ => CVar
  | Const _ _ => CConst
  | Add _ => CAdd
  | Mul _ => CMul
  | Div _ _ => CDiv
  | Pow _ _ => CPow
  | Neg _ => CNeg
  | Func _ _ => CFunc
  | Sin _ => CSin
  | Cos _ => CCos
  | Exp _ => CExp
  | Log _ => CLog
  end.

(* ================================================================= *)
(** * Construction through operators *)
(* ================================================================= *)

(** [Expr.__neg__] and its override [Const.__neg__].  A [Const] with
    neither name nor value cannot be built; negating its [None] value
    would fail. *)
Definition neg (self : Expr) : option Expr :=
  match self with
  | Const value name =>
      match name with
      | None =>
          match value with
          | Some v => Some (New.Const (- v))
          | None => None
          end
      | Some _ => Some (New.Neg (Node self))
      end
  | _ => Some (New.Neg (Node self))
  end.

(** [Expr.__mul__]: [self * other]. *)
Definition mul (self : Expr) (other : operand) : Expr :=
  New.Mul [Node self; other].

(** [Expr.__sub__]: [self - other]. *)
Definition sub (self : Expr) (other : operand) : Expr :=
  New.Add [Node self; Node (New.Neg other)].

(** [x / other] for a node [other]: [Expr.__truediv__] when [x] is a
    node, [Expr.__rtruediv__] of [other] when [x] is a number. *)
Definition truediv (x : operand) (other : Expr) : Expr :=
  New.Div x (Node other).

(* ================================================================= *)
(** * Differentiation *)
(* ================================================================= *)

(** [enumerate(l)]. *)
Definition enumerate {A : Type} (l : list A) : list (nat * A) :=
  combine (seq 0 (List.length l)) l.

(** [Mul.derivative], given the derivatives [ds] of the arguments: term
    [i] is the [Mul] of [arguments[:i]], then [ds[i]], then [arguments[i + 1:]]. *)
Definition Mul_derivative (arguments : list Expr) (ds : list operand) : Expr :=
  New.Add
    (map (fun '(i, d) =>
            Node (New.Mul (map Node (firstn i arguments) ++ [d]
                           ++ map Node (skipn (S i) arguments))))
         (enumerate ds)).

(** [Exp.derivative], given the derivative [d] of the argument:
    the [Exp] of [self.arguments], times [d]. *)
Definition Exp_derivative (argument : Expr) (d : operand) : Expr :=
  mul (Exp argument) d.

(** [Log.derivative], given the derivative [d] of the argument:
    [d / self.arguments[0]]. *)
Definition Log_derivative (argument : Expr) (d : operand) : Expr :=
  truediv d argument.

(** [derivative(var)] for [var = Var(var_name)]; the assertion
    [isinstance(var, Var)] is in the type of the second argument.

    [Var.derivative] returns [int(self.name == var.name)], a number; every
    other class returns a node.  [Pow.derivative] builds
    [Exp(Log(a) * b)] and calls its [derivative], which runs
    [Exp.derivative], then [Mul.derivative] on [Log(a) * b], then
    [Log.derivative] on [Log(a)]; that chain is written out here, so that
    the recursion is on the children of the [Pow]. *)
Fixpoint derivative (e : Expr) (var_name : string) : operand :=
  let D (arg : Expr) := derivative arg var_name in
  match e with
  | Var name => Num (if String.eqb name var_name then 1 else 0)
  | Const _ _ => Node (New.Const 0)
  | Add l => Node (New.Add (map D l))
  | Mul l => Node (Mul_derivative l (map D l))
  | Div a b =>
      Node (truediv (Node (sub (mul b (D a)) (Node (mul a (D b)))))
                    (New.Pow (Node b) (Num 2)))
  | Pow a b =>
      let product := mul (Log a) (Node b) in
      Node (Exp_derivative product
              (Node (Mul_derivative [Log a; b]
                       [Node (Log_derivative a (D a)); D b])))
  | Neg a => Node (New.Neg (D a))
  | Func name a => Node (mul (New.Func (name ++ "'") (Node a)) (D a))
  | Sin a => Node (mul (Cos a) (D a))
  | Cos a => Node (mul (New.Neg (Node (Sin a))) (D a))
  | Exp a => Node (Exp_derivative a (D a))
  | Log a => Node (Log_derivative a (D a))
  end.

(* ================================================================= *)
(** * Factors *)
(* ================================================================= *)

(** [range(start, stop)]. *)
Definition range (start stop : Z) : list Z :=
  map (fun k => start + Z.of_nat k) (seq 0 (Z.to_nat (stop - start))).

(** A Python set of nodes is represented by the list of its elements;
    two lists stand for the same set when they have the same elements. *)
Definition same_set (s t : list Expr) : Prop :=
  forall x, In x s <-> In x t.

(** The list [factors] that the loop of [Const.factors] builds. *)
Definition trial_division (value : Z) : list Z :=
  filter (fun i => value mod i =? 0) (range 1 (value + 1)).

(** [Const.factors]: the elements of the set it returns. *)
Definition Const_factors (self : Expr) : list Expr :=
  match self with
  | Const (Some value) _ => map New.Const (trial_division value)
  | _ => [self]
  end.

(* ================================================================= *)
(** * Normal forms of the simplification pass *)
(* ================================================================= *)

(** [isinstance(e, Const) and e.value != None]. *)
Definition valued (e : Expr) : bool :=
  match e with Const (Some _) _ => true | _ => false end.

Definition is_Add (e : Expr) : bool :=
  match e with Add _ => true | _ => false end.

Definition is_Mul (e : Expr) : bool :=
  match e with Mul _ => true | _ => false end.

(** The folded constant as the pass appends it: nothing when it equals
    the unit of the operation, [Const(const)] otherwise. *)
Definition tail_const (unit const : Z) : list Expr :=
  if const =? unit then [] else [Const (Some const) None].

(** The trees the pass produces.  A sum has at least two arguments: terms
    that are neither sums nor valued constants, each in normal form, with
    at most one valued constant, nonzero, at the end.  A product is alike,
    its constant being neither zero nor one.  Any other node is in normal
    form, whatever is below it. *)
Unset Elimination Schemes.
Inductive normal : Expr -> Prop :=
| normal_Add (terms : list Expr) (const : Z) :
    Forall normal terms ->
    Forall (fun t => valued t = false /\ is_Add t = false) terms ->
    (2 <= List.length (terms ++ tail_const 0 const))%nat ->
    normal (Add (terms ++ tail_const 0 const))
| normal_Mul (terms : list Expr) (const : Z) :
    Forall normal terms ->
    Forall (fun t => valued t = false /\ is_Mul t = false) terms ->
    const <> 0 ->
    (2 <= List.length (terms ++ tail_const 1 const))%nat ->
    normal (Mul (terms ++ tail_const 1 const))
| normal_other (e : Expr) :
    is_Add e = false -> is_Mul e = false -> normal e.
Set Elimination Schemes.



(** [isinstance(e, Const) and e.name == None]. *)
Definition unnamed_Const (e : Expr) : bool :=
  match e with Const _ None => true | _ => false end.

(* ================================================================= *)
(** * Dependencies, rendering and the remaining operators *)
(* ================================================================= *)

(** [dependencies()]: [Var.dependencies] returns the set made of the node
    itself; every other class inherits [Expr.dependencies], which starts
    from the empty set and takes the union with the dependencies of each
    argument in turn.  The union of two sets is the concatenation of the
    lists of their elements. *)
Fixpoint dependencies (e : Expr) : list Expr :=
  let inherited (children : list Expr) :=
    fold_left (fun deps arg => deps ++ dependencies arg) children [] in
  match e with
  | Var _ => [e]
  | Const _ _ => inherited []
  | Add l | Mul l => inherited l
  | Div x y | Pow x y => inherited [x; y]
  | Neg x | Func _ x | Sin x | Cos x | Exp x | Log x => inherited [x]
  end.

(** [str(n)] for an integer [n]: its decimal digits, after a minus sign
    when it is negative. *)
Definition str_int (n : Z) : string :=
  NilZero.string_of_int (Z.to_int n).

(** [str(e)]: [Var.__str__] is the name, [Const.__str__] the name when
    there is one and the text of the value otherwise, and [Expr.__str__]
    the description and the texts of the arguments, separated by commas
    and enclosed in parentheses. *)
Fixpoint str (e : Expr) : string :=
  let inherited (children : list Expr) :=
    ("(" ++ description e ++ ", " ++ String.concat ", " (map str children) ++ ")")%string in
  match e with
  | Var name => name
  | Const value name =>
      match name with
      | Some n => n
      | None => match value with Some v => str_int v | None => "None" end
      end
  | Add l | Mul l => inherited l
  | Div x y | Pow x y => inherited [x; y]
  | Neg x | Func _ x | Sin x | Cos x | Exp x | Log x => inherited [x]
  end.

(** The text as a function of the shape. *)
Fixpoint str_shape (s : shape) : string :=
  match s with
  | SVar name => name
  | SConst value name =>
      match name with
      | Some n => n
      | None => match value with Some v => str_int v | None => "None" end
      end
  | SNode d children =>
      ("(" ++ d ++ ", " ++ String.concat ", " (map str_shape children) ++ ")")%string
  end.

(** [Expr.__add__]: [self + other]. *)
Definition add (self : Expr) (other : operand) : Expr :=
  New.Add [Node self; other].

(** Every [Const] of the tree passes the assertion of [Const.__init__]:
    it has a name or a value.  The trees that the constructors build are
    those. *)
Fixpoint well_formed (e : Expr) : bool :=
  match e with
  | Var _ => true
  | Const value name => Const_init_ok value name
  | Add l | Mul l => forallb well_formed l
  | Div x y | Pow x y => well_formed x && well_formed y
  | Neg x | Func _ x | Sin x | Cos x | Exp x | Log x => well_formed x
  end.

Definition sum (l : list Z) : Z := fold_right Z.add 0 l.

Definition product (l : list Z) : Z := fold_right Z.mul 1 l.

(** A reading of a tree as an integer: a valued [Const] stands for its
    value, an [Add] for the sum and a [Mul] for the product of its
    arguments, and every other node for the integer that [atom] gives
    it. *)
Fixpoint eval (atom : Expr -> Z) (e : Expr) : Z :=
  match e with
  | Const (Some v) _ => v
  | Add l => sum (map (eval atom) l)
  | Mul l => product (map (eval atom) l)
  | _ => atom e
  end.

(** The element at position [i] of [l] replaced by [x]. *)
Fixpoint replace_at {A : Type} (i : nat) (x : A) (l : list A) : list A :=
  match l, i with
  | [], _ => []
  | _ :: l', O => x :: l'
  | y :: l', S i' => y :: replace_at i' x l'
  end.

(* ================================================================= *)
(** * Trees with [int] and [float] values *)
(* ================================================================= *)

(** The definitions above keep to [Const] values of type [int].  This
    module follows the same code with the values of a [Const] being Python
    [int]s or [float]s, that is IEEE 754 binary64 numbers.  A [bool] is the
    integer it equals in every operation modelled here; [complex] values
    stay outside.  Arithmetic that mixes an [int] with a [float] converts
    the [int], which fails with [OverflowError] when it is too large;
    [None] stands for that failure. *)
Module Num.

Inductive number : Type :=
| Int (z : Z)
| Float (f : float).

(** [float(z)]: the nearest binary64 number, ties to even, and a failure
    when that is out of range. *)
Definition float_of_int (z : Z) : option float :=
  let f := SF2Prim (binary_normalize prec emax z 0 false) in
  if is_infinity f then None else Some f.

(** [x + y]. *)
Definition add (x y : number) : option number :=
  match x, y with
  | Int a, Int b => Some (Int (a + b))
  | Int a, Float g => option_map (fun f => Float (f + g)%float) (float_of_int a)
  | Float f, Int b => option_map (fun g => Float (f + g)%float) (float_of_int b)
  | Float f, Float g => Some (Float (f + g)%float)
  end.

(** [x * y]. *)
Definition mul (x y : number) : option number :=
  match x, y with
  | Int a, Int b => Some (Int (a * b))
  | Int a, Float g => option_map (fun f => Float (f * g)%float) (float_of_int a)
  | Float f, Int b => option_map (fun g => Float (f * g)%float) (float_of_int b)
  | Float f, Float g => Some (Float (f * g)%float)
  end.

(** [f == z] for a [float] and an [int]: the interpreter compares the
    two exactly, without rounding the integer. *)
Definition float_eq_int (f : float) (z : Z) : bool :=
  match Prim2SF f with
  | S754_zero _ => z =? 0
  | S754_finite s m e =>
      let v := if s then Z.neg m else Z.pos m in
      if 0 <=? e then z =? v * 2 ^ e
      else (v mod 2 ^ (- e) =? 0) && (z =? v / 2 ^ (- e))
  | S754_infinity _ | S754_nan => false
  end.

(** [x == y]; on two floats it is the comparison of IEEE 754, which
    answers [False] on a NaN, also against itself. *)
Definition eqb (x y : number) : bool :=
  match x, y with
  | Int a, Int b => a =? b
  | Int a, Float g => float_eq_int g a
  | Float f, Int b => float_eq_int f b
  | Float f, Float g => (f =? g)%float
  end.

Unset Elimination Schemes.
Inductive Expr : Type :=
| Var (name : string)
| Const (value : option number) (name : option string)
| Add (arguments : list Expr)
| Mul (arguments : list Expr)
| Div (numerator denominator : Expr)
| Pow (base exponent : Expr)
| Neg (argument : Expr)
| Func (name : string) (argument : Expr)
| Sin (argument : Expr)
| Cos (argument : Expr)
| Exp (argument : Expr)
| Log (argument : Expr).
Set Elimination Schemes.

Definition description (e : Expr) : string :=
  match e with
  | Var _ => "var"
  | Const _ _ => "const"
  | Add _ => "+"
  | Mul _ => "*"
  | Div _ _ => "/"
  | Pow _ _ => "^"
  | Neg _ => "neg"
  | Func name _ => name
  | Sin _ => "sin"
  | Cos _ => "cos"
  | Exp _ => "exp"
  | Log _ => "log"
  end%string.

Definition arguments (e : Expr) : list Expr :=
  match e with
  | Var _ | Const _ _ => []
  | Add l | Mul l => l
  | Div a b | Pow a b => [a; b]
  | Neg a | Func _ a | Sin a | Cos a | Exp a | Log a => [a]
  end.

(** The loop state of [Add.simplified] and [Mul.simplified]. *)
Definition acc : Type := (list Expr * number)%type.

(** [const += v] or [const *= v], which may fail. *)
Definition update (op : number -> number -> option number) (st : acc) (v : number)
  : option acc :=
  option_map (fun const => (fst st, const)) (op (snd st) v).

(** A loop whose body may fail. *)
Fixpoint loop (body : acc -> Expr -> option acc) (l : list Expr) (st : acc)
  : option acc :=
  match l with
  | [] => Some st
  | x :: l' =>
      match body st x with
      | Some st' => loop body l' st'
      | None => None
      end
  end.

(** Body of the inner loop [for secArg in arg.arguments]. *)
Definition fold_secArg (op : number -> number -> option number) (st : acc) (secArg : Expr)
  : option acc :=
  match secArg with
  | Const value _ =>
      match value with
      | Some v => update op st v
      | None => Some (fst st ++ [secArg], snd st)
      end
  | _ => Some (fst st ++ [secArg], snd st)
  end.

(** Body of the outer loop of [Add.simplified]. *)
Definition Add_fold_arg (st : acc) (arg : Expr) : option acc :=
  match arg with
  | Const value _ =>
      match value with
      | Some v => update add st v
      | None => Some (fst st ++ [arg], snd st)
      end
  | Add secArgs => loop (fold_secArg add) secArgs st
  | _ => Some (fst st ++ [arg], snd st)
  end.

(** [Add.simplified], given the result of [self.simplifiedArguments()]:
    the loop, then [if const != 0], then the test on [len(args)]. *)
Definition Add_simplified (simplifiedArguments : list Expr) : option Expr :=
  match loop Add_fold_arg simplifiedArguments ([], Int 0) with
  | None => None
  | Some (args, const) =>
      let args :=
        if negb (eqb const (Int 0)) then args ++ [Const (Some const) None] else args in
      Some match args with
           | [] => Const (Some (Int 0)) None
           | [x] => x
           | _ => Add args
           end
  end.

(** Body of the outer loop of [Mul.simplified]. *)
Definition Mul_fold_arg (st : acc) (arg : Expr) : option acc :=
  match arg with
  | Const value _ =>
      match value with
      | Some v => update mul st v
      | None => Some (fst st ++ [arg], snd st)
      end
  | Mul secArgs => loop (fold_secArg mul) secArgs st
  | _ => Some (fst st ++ [arg], snd st)
  end.

(** [Mul.simplified], given the result of [self.simplifiedArguments()]:
    the loop, then [if const == 0], [if const != 1] and the test on
    [len(args)]. *)
Definition Mul_simplified (simplifiedArguments : list Expr) : option Expr :=
  match loop Mul_fold_arg simplifiedArguments ([], Int 1) with
  | None => None
  | Some (args, const) =>
      if eqb const (Int 0) then Some (Const (Some (Int 0)) None)
      else
        let args :=
          if negb (eqb const (Int 1)) then args ++ [Const (Some const) None] else args in
        Some match args with
             | [] => Const (Some (Int 1)) None
             | [x] => x
             | _ => Mul args
             end
  end.

(** All the results, or the failure of one of them. *)
Fixpoint all_or_none {A : Type} (l : list (option A)) : option (list A) :=
  match l with
  | [] => Some []
  | Some x :: l' => option_map (cons x) (all_or_none l')
  | None :: _ => None
  end.

(** [simplified()], which fails when the folding of a constant does. *)
Fixpoint simplified (e : Expr) : option Expr :=
  match e with
  | Add l =>
      match all_or_none (map simplified l) with
      | Some simplifiedArguments => Add_simplified simplifiedArguments
      | None => None
      end
  | Mul l =>
      match all_or_none (map simplified l) with
      | Some simplifiedArguments => Mul_simplified simplifiedArguments
      | None => None
      end
  | _ => Some e
  end.

(** [Const.__eq__] past its assertion. *)
Definition Const_eq (value : option number) (name : option string)
  (value' : option number) (name' : option string) : bool :=
  option_eqb String.eqb name name' && option_eqb eqb value value'.

Fixpoint tuple_eq (cmps : list (Expr -> option bool)) (others : list Expr)
  : option bool :=
  match cmps, others with
  | cmp :: cmps', y :: others' =>
      match cmp y with
      | None => None
      | Some false => Some false
      | Some true => tuple_eq cmps' others'
      end
  | [], [] => Some true
  | _, _ => Some false
  end.

Definition is_Func (e : Expr) : bool :=
  match e with Func _ _ => true | _ => false end.

Definition is_Func_subclass (e : Expr) : bool :=
  match e with Sin _ | Cos _ | Exp _ | Log _ => true | _ => false end.

(** The operator [==], with the dispatch explained at [eq_dir] above;
    [eq_dir false a b] is [a == b] and [eq_dir true a b] is [b == a].
    The comparison of two tuples takes two items for equal without
    calling [__eq__] when they are one and the same object; that shortcut
    is left out here, which changes an answer only for an object shared
    by both tuples on which [==] does not answer [True], that is one
    that holds a NaN. *)
Fixpoint eq_dir (flip : bool) (a b : Expr) {struct a} : option bool :=
  let inherited (a_is_self : bool) (children : list Expr) :=
    if a_is_self
    then Expr_eq (tuple_eq (map (eq_dir false) children) (arguments b))
                 (description a) (description b)
    else
      match b with
      | Var _ | Const _ _ => None
      | _ => Expr_eq (tuple_eq (map (eq_dir true) children) (arguments b))
                     (description b) (description a)
      end in
  let a_is_self :=
    if flip then is_Func b && is_Func_subclass a
    else negb (is_Func a && is_Func_subclass b) in
  match a with
  | Var name =>
      match b with
      | Var name' => Some (if flip then String.eqb name' name else String.eqb name name')
      | Const _ _ => None
      | _ => if flip then inherited false [] else None
      end
  | Const value name =>
      match b with
      | Const value' name' =>
          Some (if flip then Const_eq value' name' value name
                else Const_eq value name value' name')
      | Var _ => None
      | _ => if flip then inherited false [] else None
      end
  | Add l | Mul l => inherited a_is_self l
  | Div x y | Pow x y => inherited a_is_self [x; y]
  | Neg x | Func _ x | Sin x | Cos x | Exp x | Log x => inherited a_is_self [x]
  end.

(** [a == b]. *)
Definition eq_op (a b : Expr) : option bool := eq_dir false a b.


End Num.

(** A tree with [int] values, among the trees with [int] and [float]
    values. *)
Fixpoint inject (e : Expr) : Num.Expr :=
  match e with
  | Var name => Num.Var name
  | Const value name => Num.Const (option_map Num.Int value) name
  | Add l => Num.Add (map inject l)
  | Mul l => Num.Mul (map inject l)
  | Div x y => Num.Div (inject x) (inject y)
  | Pow x y => Num.Pow (inject x) (inject y)
  | Neg x => Num.Neg (inject x)
  | Func name x => Num.Func name (inject x)
  | Sin x => Num.Sin (inject x)
  | Cos x => Num.Cos (inject x)
  | Exp x => Num.Exp (inject x)
  | Log x => Num.Log (inject x)
  end.



(* ================================================================= *)
(** * Properties of simplification *)
(* ================================================================= *)

(** C1 (as the code has it): a node of class Var, Const, Div, Pow, Neg,
    Func, Sin, Cos, Exp or Log is returned by [simplified] as it is; no
    rewrite is applied and its children are left as they are. *)
Theorem simplified_default_is_self (e : Expr) :
  inherits_simplified e = true -> simplified e = e.
Proof.
  destruct e; simpl; intros H; try reflexivity; discriminate H.
Qed.

Lemma simplified_default_is_self_witness :
  inherits_simplified (Neg (Add [Const (Some 1) None; Const (Some 2) None])) = true /\
  simplified (Neg (Add [Const (Some 1) None; Const (Some 2) None]))
  = Neg (Add [Const (Some 1) None; Const (Some 2) None]).
Proof.
  split; [reflexivity | apply simplified_default_is_self; reflexivity].
Defined.

(** C1 (as stated) fails: the child [Add(1, 2)] of a [Neg] simplifies to
    [Const(3)], yet [simplified] leaves it in place under the [Neg]. *)
Lemma simplified_default_no_recursion :
  inherits_simplified (Neg (Add [Const (Some 1) None; Const (Some 2) None])) = true /\
  simplified (Neg (Add [Const (Some 1) None; Const (Some 2) None]))
  <> with_simplified_children (Neg (Add [Const (Some 1) None; Const (Some 2) None])).
Proof.
  split; [reflexivity | vm_compute; discriminate].
Qed.

(** ** Zero absorption *)

Lemma fold_secArg_mul_zero (l : list Expr) (args : list Expr) :
  snd (fold_left (fold_secArg Z.mul) l (args, 0)) = 0.
Proof.
  revert args. induction l as [|x l IH]; intros args; simpl; [reflexivity|].
  destruct x as [| [v|] ? | | | | | | | | | | ]; simpl; apply IH.
Qed.

Lemma Mul_fold_arg_zero (l : list Expr) (args : list Expr) :
  snd (fold_left Mul_fold_arg l (args, 0)) = 0.
Proof.
  revert args. induction l as [|x l IH]; intros args; simpl; [reflexivity|].
  destruct x as [| [v|] ? | | secArgs | | | | | | | | ]; simpl; try apply IH.
  pose proof (fold_secArg_mul_zero secArgs args) as Hz.
  destruct (fold_left (fold_secArg Z.mul) secArgs (args, 0)) as [args' k].
  simpl in Hz. subst k. apply IH.
Qed.

Lemma Mul_simplified_zero_head (l : list Expr) :
  Mul_simplified (Const (Some 0) None :: l) = Const (Some 0) None.
Proof.
  unfold Mul_simplified. cbn [fold_left Mul_fold_arg].
  change (1 * 0) with 0.
  pose proof (Mul_fold_arg_zero l []) as Hz.
  destruct (fold_left Mul_fold_arg l ([], 0)) as [args k].
  cbn [snd] in Hz. subst k. reflexivity.
Qed.

(** On trees with [int] values, [simplified(Mul(Const(0), x))] is
    [Const(0)] for every [x]. *)
Theorem Mul_zero_absorbs (x : Expr) :
  simplified (New.Mul [Node (New.Const 0); Node x]) = New.Const 0.
Proof.
  cbn [New.Mul New.Const map promote simplified].
  apply Mul_simplified_zero_head.
Qed.

(** C8: [simplified(Add(Const(None, "pi"), Const(0)))] is the node
    [Const(None, "pi")]; the same holds for every name, the named constant
    being kept as a term and the zero dropped. *)
Theorem Add_named_constant_kept :
  simplified (New.Add [Node (Const None (Some "pi"%string)); Node (New.Const 0)])
  = Const None (Some "pi"%string)
  /\ forall name : string,
       simplified (New.Add [Node (Const None (Some name)); Node (New.Const 0)])
       = Const None (Some name).
Proof.
  split; [reflexivity | intros name; reflexivity].
Qed.

(** ** Idempotence *)

Lemma valued_Const (v : Z) (n : option string) (P : Prop) :
  valued (Const (Some v) n) = false -> P.
Proof. simpl. discriminate. Qed.

(** A term that is not a valued constant goes to [args] as it is. *)
Lemma fold_secArg_terms (op : Z -> Z -> Z) (terms args : list Expr) (k : Z) :
  Forall (fun t => valued t = false) terms ->
  fold_left (fold_secArg op) terms (args, k) = (args ++ terms, k).
Proof.
  intros H. revert args.
  induction H as [|t terms Ht _ IH]; intros args; simpl.
  - now rewrite app_nil_r.
  - destruct t as [| [v|] ? | | | | | | | | | | ];
      try (exfalso; revert Ht; apply valued_Const);
      cbn [fold_secArg]; rewrite IH, <- app_assoc; reflexivity.
Qed.

Lemma fold_secArg_tail (op : Z -> Z -> Z) (unit c : Z) (args : list Expr) (k : Z) :
  fold_left (fold_secArg op) (tail_const unit c) (args, k)
  = (args, if c =? unit then k else op k c).
Proof. unfold tail_const. destruct (c =? unit); reflexivity. Qed.

Lemma Add_fold_arg_terms (terms args : list Expr) (k : Z) :
  Forall (fun t => valued t = false /\ is_Add t = false) terms ->
  fold_left Add_fold_arg terms (args, k) = (args ++ terms, k).
Proof.
  intros H. revert args.
  induction H as [|t terms [Hv Ha] _ IH]; intros args; simpl.
  - now rewrite app_nil_r.
  - destruct t as [| [v|] ? | | | | | | | | | | ];
      try discriminate Hv; try discriminate Ha;
      cbn [Add_fold_arg]; rewrite IH, <- app_assoc; reflexivity.
Qed.

Lemma Mul_fold_arg_terms (terms args : list Expr) (k : Z) :
  Forall (fun t => valued t = false /\ is_Mul t = false) terms ->
  fold_left Mul_fold_arg terms (args, k) = (args ++ terms, k).
Proof.
  intros H. revert args.
  induction H as [|t terms [Hv Ha] _ IH]; intros args; simpl.
  - now rewrite app_nil_r.
  - destruct t as [| [v|] ? | | | | | | | | | | ];
      try discriminate Hv; try discriminate Ha;
      cbn [Mul_fold_arg]; rewrite IH, <- app_assoc; reflexivity.
Qed.

Lemma at_least_two_self (l : list Expr) (z : Expr) (f : list Expr -> Expr) :
  (2 <= List.length l)%nat ->
  match l with [] => z | [x] => x | _ => f l end = f l.
Proof.
  destruct l as [|x [|y r]]; simpl; intros H; try lia; reflexivity.
Qed.

Lemma map_stable (l : list Expr) :
  Forall (fun x => normal x -> simplified x = x) l ->
  Forall normal l -> map simplified l = l.
Proof.
  induction 1 as [|x l Hx _ IH]; intros Hn; simpl; [reflexivity|].
  inversion Hn; subst. now rewrite Hx, IH.
Qed.

Lemma normal_tail (unit c : Z) : Forall normal (tail_const unit c).
Proof.
  unfold tail_const. destruct (c =? unit); repeat constructor.
Qed.

Lemma Add_simplified_normal_form (terms : list Expr) (c : Z) :
  Forall (fun t => valued t = false /\ is_Add t = false) terms ->
  (2 <= List.length (terms ++ tail_const 0 c))%nat ->
  Add_simplified (terms ++ tail_const 0 c) = Add (terms ++ tail_const 0 c).
Proof.
  intros Hc Hlen. unfold Add_simplified.
  rewrite fold_left_app, Add_fold_arg_terms by assumption.
  cbn [app]. revert Hlen. unfold tail_const.
  destruct (c =? 0) eqn:E; intros Hlen; cbn [fold_left Add_fold_arg].
  - cbn [Z.eqb]. rewrite app_nil_r in *. now apply at_least_two_self.
  - rewrite Z.add_0_l, E. now apply at_least_two_self.
Qed.

Lemma Mul_simplified_normal_form (terms : list Expr) (c : Z) :
  Forall (fun t => valued t = false /\ is_Mul t = false) terms ->
  c <> 0 ->
  (2 <= List.length (terms ++ tail_const 1 c))%nat ->
  Mul_simplified (terms ++ tail_const 1 c) = Mul (terms ++ tail_const 1 c).
Proof.
  intros Hc Hnz Hlen. unfold Mul_simplified.
  rewrite fold_left_app, Mul_fold_arg_terms by assumption.
  cbn [app]. revert Hlen. unfold tail_const.
  destruct (c =? 1) eqn:E; intros Hlen; cbn [fold_left Mul_fold_arg].
  - cbn [Z.eqb]. rewrite app_nil_r in *. now apply at_least_two_self.
  - rewrite Z.mul_1_l, E.
    destruct (c =? 0) eqn:E0; [apply Z.eqb_eq in E0; contradiction|].
    now apply at_least_two_self.
Qed.

(** A tree in normal form is a fixed point of the pass. *)
Lemma normal_stable (e : Expr) : normal e -> simplified e = e.
Proof.
  induction e as [ | | l IH | l IH | | | | | | | | ] using Expr_ind;
    intros Hn; try reflexivity.
  - inversion Hn as [terms c Hnt Hct Hlen Heq | | e' Ha _ Heq]; subst;
      [| discriminate Ha].
    cbn [simplified].
    rewrite map_stable; auto.
    + now apply Add_simplified_normal_form.
    + apply Forall_app; split; [assumption | apply normal_tail].
  - inversion Hn as [| terms c Hnt Hct Hnz Hlen Heq | e' _ Hm Heq]; subst;
      [| discriminate Hm].
    cbn [simplified].
    rewrite map_stable; auto.
    + now apply Mul_simplified_normal_form.
    + apply Forall_app; split; [assumption | apply normal_tail].
Qed.

(** The loop of [Add.simplified] keeps in [args] only terms in normal form
    that are neither sums nor valued constants, when the arguments it
    walks over are in normal form. *)
Lemma Add_loop_invariant (sargs args : list Expr) (k : Z) :
  Forall normal sargs ->
  Forall normal args ->
  Forall (fun t => valued t = false /\ is_Add t = false) args ->
  exists args' k',
    fold_left Add_fold_arg sargs (args, k) = (args', k')
    /\ Forall normal args'
    /\ Forall (fun t => valued t = false /\ is_Add t = false) args'.
Proof.
  intros Hs. revert args k.
  induction Hs as [|arg sargs Harg _ IH]; intros args k Hn Hc.
  - exists args, k. auto.
  - cbn [fold_left].
    destruct arg as [| [v|] ? | secArgs | | | | | | | | | ];
      cbn [Add_fold_arg];
      try (apply IH; apply Forall_app; split; try assumption;
           constructor; auto).
    + apply IH; assumption.
    + inversion Harg as [terms c Hnt Hct Hlen Heq | | e' Ha _ Heq]; subst;
        [| discriminate Ha].
      rewrite fold_left_app, fold_secArg_terms, fold_secArg_tail
        by (revert Hct; apply Forall_impl; tauto).
      apply IH; apply Forall_app; split; assumption.
Qed.

Lemma Mul_loop_invariant (sargs args : list Expr) (k : Z) :
  Forall normal sargs ->
  Forall normal args ->
  Forall (fun t => valued t = false /\ is_Mul t = false) args ->
  exists args' k',
    fold_left Mul_fold_arg sargs (args, k) = (args', k')
    /\ Forall normal args'
    /\ Forall (fun t => valued t = false /\ is_Mul t = false) args'.
Proof.
  intros Hs. revert args k.
  induction Hs as [|arg sargs Harg _ IH]; intros args k Hn Hc.
  - exists args, k. auto.
  - cbn [fold_left].
    destruct arg as [| [v|] ? | | secArgs | | | | | | | | ];
      cbn [Mul_fold_arg];
      try (apply IH; apply Forall_app; split; try assumption;
           constructor; auto).
    + apply IH; assumption.
    + inversion Harg as [| terms c Hnt Hct Hnz Hlen Heq | e' _ Hm Heq]; subst;
        [| discriminate Hm].
      rewrite fold_left_app, fold_secArg_terms, fold_secArg_tail
        by (revert Hct; apply Forall_impl; tauto).
      apply IH; apply Forall_app; split; assumption.
Qed.

(** What the last lines of both methods return is in normal form. *)
Lemma finish_normal (args : list Expr) (unit k : Z) (mk : list Expr -> Expr) :
  Forall normal args ->
  ((2 <= List.length (args ++ tail_const unit k))%nat ->
   normal (mk (args ++ tail_const unit k))) ->
  normal match args ++ tail_const unit k with
         | [] => Const (Some unit) None
         | [x] => x
         | _ => mk (args ++ tail_const unit k)
         end.
Proof.
  intros Hn Hmk.
  assert (Hall : Forall normal (args ++ tail_const unit k))
    by (apply Forall_app; split; [assumption | apply normal_tail]).
  destruct (args ++ tail_const unit k) as [|x [|y r]].
  - now apply normal_other.
  - now inversion Hall.
  - apply Hmk. simpl. lia.
Qed.

Lemma Add_simplified_normal (sargs : list Expr) :
  Forall normal sargs -> normal (Add_simplified sargs).
Proof.
  intros Hs. unfold Add_simplified.
  destruct (Add_loop_invariant sargs [] 0 Hs (Forall_nil _) (Forall_nil _))
    as (args & k & -> & Hn & Hc).
  replace (if k =? 0 then args else args ++ [Const (Some k) None])
    with (args ++ tail_const 0 k)
    by (unfold tail_const; destruct (k =? 0); [apply app_nil_r | reflexivity]).
  apply (finish_normal args 0 k Add Hn).
  intros Hlen. now apply normal_Add.
Qed.

Lemma Mul_simplified_normal (sargs : list Expr) :
  Forall normal sargs -> normal (Mul_simplified sargs).
Proof.
  intros Hs. unfold Mul_simplified.
  destruct (Mul_loop_invariant sargs [] 1 Hs (Forall_nil _) (Forall_nil _))
    as (args & k & -> & Hn & Hc).
  destruct (k =? 0) eqn:E0; [now apply normal_other|].
  replace (if k =? 1 then args else args ++ [Const (Some k) None])
    with (args ++ tail_const 1 k)
    by (unfold tail_const; destruct (k =? 1); [apply app_nil_r | reflexivity]).
  apply (finish_normal args 1 k Mul Hn).
  intros Hlen. apply normal_Mul; try assumption.
  now apply Z.eqb_neq.
Qed.

(** The pass returns a tree in normal form. *)
Lemma simplified_normal (e : Expr) : normal (simplified e).
Proof.
  induction e as [ | | l IH | l IH | | | | | | | | ] using Expr_ind;
    try (now apply normal_other).
  - cbn [simplified]. apply Add_simplified_normal.
    apply Forall_map. exact IH.
  - cbn [simplified]. apply Mul_simplified_normal.
    apply Forall_map. exact IH.
Qed.

(* ================================================================= *)
(** * Properties of equality and hashing *)
(* ================================================================= *)

Lemma Expr_args_ind (P : Expr -> Prop) :
  (forall e, Forall P (arguments e) -> P e) -> forall e, P e.
Proof.
  intros H e. induction e using Expr_ind; apply H; simpl; auto.
Qed.

Lemma Expr_eq_true (t : option bool) (d1 d2 : string) :
  Expr_eq t d1 d2 = Some true <-> t = Some true /\ d1 = d2.
Proof.
  destruct t as [[|]|]; simpl; split.
  - intros E. injection E as E. apply String.eqb_eq in E. auto.
  - intros [_ E]. f_equal. now apply String.eqb_eq.
  - discriminate.
  - intros [E _]. discriminate E.
  - discriminate.
  - intros [E _]. discriminate E.
Qed.

Lemma tuple_eq_true (f : Expr -> Expr -> option bool) (l m : list Expr) :
  Forall (fun x => forall y, f x y = Some true <-> shape_of x = shape_of y) l ->
  tuple_eq (map f l) m = Some true <-> map shape_of l = map shape_of m.
Proof.
  intros H. revert m.
  induction H as [|x l Hx _ IH]; intros [|y m]; simpl;
    try (split; [reflexivity | reflexivity]);
    try (split; discriminate).
  specialize (Hx y). specialize (IH m).
  destruct (f x y) as [[|]|].
  - rewrite IH. split.
    + intros ->. f_equal. now apply Hx.
    + intros E. now injection E.
  - split; [discriminate|]. intros E. injection E as E _.
    apply Hx in E. discriminate E.
  - split; [discriminate|]. intros E. injection E as E _.
    apply Hx in E. discriminate E.
Qed.

Lemma option_eqb_eq {A : Type} (eqb : A -> A -> bool) (x y : option A) :
  (forall a b, eqb a b = true <-> a = b) ->
  option_eqb eqb x y = true <-> x = y.
Proof.
  intros H. destruct x as [a|], y as [b|]; simpl;
    try (split; (reflexivity || discriminate)).
  rewrite H. split; congruence.
Qed.

Lemma Const_eq_true (v : option Z) (n : option string) (v' : option Z) (n' : option string) :
  Const_eq v n v' n' = true <-> v = v' /\ n = n'.
Proof.
  unfold Const_eq. rewrite andb_true_iff.
  rewrite (option_eqb_eq String.eqb n n' String.eqb_eq).
  rewrite (option_eqb_eq Z.eqb v v' Z.eqb_eq). tauto.
Qed.

Lemma Some_true_iff (c : bool) : Some c = Some true <-> c = true.
Proof. split; congruence. Qed.

Lemma eq_dir_shape (a : Expr) :
  forall flip b, eq_dir flip a b = Some true <-> shape_of a = shape_of b.
Proof.
  induction a as [a IH] using Expr_args_ind. intros flip b.
  destruct a, flip, b; cbn -[tuple_eq map String.eqb] in *;
    try (split; discriminate);
    try (rewrite Some_true_iff, ?String.eqb_eq, ?Const_eq_true;
         split; [intuition congruence | intros E; repeat split; congruence]);
    rewrite Expr_eq_true, tuple_eq_true
      by (revert IH; apply Forall_impl; intros x Hx y; apply Hx);
    cbn [map]; (split; [intros [E1 E2] | intros E; split]);
    congruence.
Qed.

(** [==] is reflexive, so that the shortcut the interpreter takes on two
    references to one object agrees with the comparison it skips. *)
Lemma eq_op_refl (a : Expr) : eq_op a a = Some true.
Proof. apply eq_dir_shape. reflexivity. Qed.


Lemma eq_op_leaf_other_class (a b : Expr) :
  class_of a = CVar \/ class_of a = CConst ->
  class_of b <> class_of a ->
  eq_op a b = None.
Proof.
  intros Ha Hb.
  destruct a; cbn [class_of] in Ha; try (destruct Ha; discriminate);
    destruct b; cbn [class_of] in Hb; try reflexivity; congruence.
Qed.



(* ================================================================= *)
(** * Idempotence of the pass *)
(* ================================================================= *)

(** On trees with [int] values, [simplified(simplified(e))] is the same
    tree as [simplified(e)], and [==] answers [True] on the two. *)
Theorem simplified_idempotent (e : Expr) :
  simplified (simplified e) = simplified e
  /\ eq_op (simplified (simplified e)) (simplified e) = Some true.
Proof.
  assert (H : simplified (simplified e) = simplified e)
    by (apply normal_stable, simplified_normal).
  split; [exact H | rewrite H; apply eq_op_refl].
Qed.

(* ================================================================= *)
(** * Properties of differentiation *)
(* ================================================================= *)

(** C4 (the code at the failing input): [Var.derivative] returns the
    number [1] or [0] itself, never a node; only a constructor or an
    operator that later receives it turns it into a [Const]. *)
Theorem Var_derivative_is_a_number :
  derivative (Var "x") "x" = Num 1
  /\ derivative (Var "x") "y" = Num 0
  /\ (forall (name var_name : string) (e : Expr),
        derivative (Var name) var_name <> Node e)
  /\ (forall name var_name : string,
        promote (derivative (Var name) var_name)
        = New.Const (if String.eqb name var_name then 1 else 0)).
Proof.
  repeat split; try reflexivity.
  intros name var_name e. cbn [derivative]. discriminate.
Qed.

(** C6: the derivative of [Add(e1, e2)] is the tree
    [Add(derivative(e1), derivative(e2))], and [==] answers [True] on
    the two. *)
Theorem Add_derivative_termwise (e1 e2 : Expr) (var_name : string) :
  derivative (New.Add [Node e1; Node e2]) var_name
  = Node (New.Add [derivative e1 var_name; derivative e2 var_name])
  /\ eq_op (promote (derivative (New.Add [Node e1; Node e2]) var_name))
           (New.Add [derivative e1 var_name; derivative e2 var_name])
     = Some true.
Proof.
  assert (H : derivative (New.Add [Node e1; Node e2]) var_name
              = Node (New.Add [derivative e1 var_name; derivative e2 var_name]))
    by reflexivity.
  split; [exact H | rewrite H; apply eq_op_refl].
Qed.

(* ================================================================= *)
(** * Properties of negation *)
(* ================================================================= *)

(** C9 (as the code has it): negation wraps its operand in a [Neg],
    unless the operand is a [Const] without a name: then the result is
    the [Const] of the negated value. *)
Theorem neg_spec (e : Expr) :
  (unnamed_Const e = false -> neg e = Some (New.Neg (Node e)))
  /\ (forall v : Z, e = Const (Some v) None -> neg e = Some (New.Const (- v))).
Proof.
  split.
  - destruct e as [| v [n|] | | | | | | | | | | ]; intros H;
      try reflexivity; discriminate H.
  - intros v ->. reflexivity.
Qed.

Lemma neg_spec_witness :
  neg (Const (Some 5) (Some "five"%string))
  = Some (Neg (Const (Some 5) (Some "five"%string)))
  /\ neg (Const (Some 5) None) = Some (Const (Some (-5)) None).
Proof.
  split.
  - apply (proj1 (neg_spec (Const (Some 5) (Some "five"%string)))). reflexivity.
  - apply (proj2 (neg_spec (Const (Some 5) None)) 5). reflexivity.
Defined.

(** C9 (as stated) fails on a [Const] that carries a value and no name:
    [-Const(5)] is [Const(-5)], not [Neg(Const(5))]. *)
Lemma neg_of_unnamed_Const :
  neg (New.Const 5) = Some (New.Const (-5))
  /\ neg (New.Const 5) <> Some (New.Neg (Node (New.Const 5))).
Proof.
  split; [reflexivity | discriminate].
Qed.

(* ================================================================= *)
(** * Properties of the factor query *)
(* ================================================================= *)

Lemma in_range (start stop i : Z) :
  In i (range start stop) <-> start <= i < stop.
Proof.
  unfold range. rewrite in_map_iff. split.
  - intros (k & <- & Hk). apply in_seq in Hk. lia.
  - intros Hi. exists (Z.to_nat (i - start)). split; [lia|].
    apply in_seq. lia.
Qed.

Lemma NoDup_range (start stop : Z) : NoDup (range start stop).
Proof.
  unfold range. apply Injective_map_NoDup; [| apply seq_NoDup].
  intros j k E. lia.
Qed.

Lemma in_trial_division (value d : Z) :
  In d (trial_division value) <-> 1 <= d <= value /\ (d | value).
Proof.
  unfold trial_division. rewrite filter_In, in_range, Z.eqb_eq.
  split.
  - intros [Hd Hm]. split; [lia|]. apply Z.mod_divide; [lia | assumption].
  - intros [Hd Hm]. split; [lia|]. apply Z.mod_divide; [lia | assumption].
Qed.

Lemma trial_division_nonpositive (value : Z) :
  value <= 0 -> trial_division value = [].
Proof.
  intros H. unfold trial_division, range.
  replace (Z.to_nat (value + 1 - 1)) with 0%nat by lia. reflexivity.
Qed.

(** C7 (as the code has it): for a [Const] whose value is a positive
    integer, the set has for elements the nodes [Const(d)], one for each
    positive divisor [d] of the value, and nothing else;
    [factors(Const(12))] is the set of [Const(1)], [Const(2)], [Const(3)],
    [Const(4)], [Const(6)] and [Const(12)]. *)
Theorem Const_factors_positive (value : Z) (name : option string) :
  0 < value ->
  (forall d : Z, In (New.Const d) (Const_factors (Const (Some value) name))
                 <-> 0 < d /\ (d | value))
  /\ (forall x : Expr, In x (Const_factors (Const (Some value) name))
                       -> exists d : Z, x = New.Const d)
  /\ NoDup (Const_factors (Const (Some value) name))
  /\ same_set (Const_factors (New.Const 12))
       [New.Const 1; New.Const 2; New.Const 3; New.Const 4; New.Const 6; New.Const 12].
Proof.
  intros Hpos. cbn [Const_factors]. split; [| split; [| split]].
  - intros d. rewrite in_map_iff. split.
    + intros (i & E & Hi). injection E as ->.
      apply in_trial_division in Hi. split; [lia | tauto].
    + intros [Hd Hdiv]. exists d. split; [reflexivity|].
      apply in_trial_division. split; [| assumption].
      split; [lia | now apply Z.divide_pos_le].
  - intros x Hx. apply in_map_iff in Hx as (i & <- & _). now exists i.
  - apply Injective_map_NoDup.
    + intros i j E. now injection E.
    + apply NoDup_filter, NoDup_range.
  - intros x. reflexivity.
Qed.

Lemma Const_factors_positive_witness :
  0 < 12
  /\ (forall d : Z, In (New.Const d) (Const_factors (Const (Some 12) None))
                    <-> 0 < d /\ (d | 12)).
Proof.
  split; [lia | apply (Const_factors_positive 12 None); lia].
Defined.

(** C7 (as stated) fails on a negative integer: [3] is a positive divisor
    of [-12], and [factors(Const(-12))] is the empty set. *)
Lemma Const_factors_negative_value :
  0 < 3 /\ (3 | -12)
  /\ Const_factors (New.Const (-12)) = []
  /\ ~ In (New.Const 3) (Const_factors (New.Const (-12))).
Proof.
  split; [lia | split; [exists (-4); lia | split; [reflexivity | intros []]]].
Qed.

(** C10: for a [Const] whose value is an integer at most zero, the set is
    empty; it is not the set made of the node itself. *)
Theorem Const_factors_nonpositive (value : Z) (name : option string) :
  value <= 0 ->
  Const_factors (Const (Some value) name) = []
  /\ ~ In (Const (Some value) name) (Const_factors (Const (Some value) name)).
Proof.
  intros H. cbn [Const_factors].
  rewrite trial_division_nonpositive by assumption.
  split; [reflexivity | intros []].
Qed.

Lemma Const_factors_nonpositive_witness :
  -12 <= 0
  /\ Const_factors (Const (Some (-12)) None) = []
  /\ Const_factors (Const (Some 0) None) = [].
Proof.
  split; [lia | split].
  - apply (Const_factors_nonpositive (-12) None). lia.
  - apply (Const_factors_nonpositive 0 None). lia.
Defined.

(* ================================================================= *)
(** * The value of a simplified tree *)
(* ================================================================= *)

Lemma sum_app (l l' : list Z) : sum (l ++ l') = sum l + sum l'.
Proof. unfold sum. induction l; simpl; lia. Qed.

Lemma product_app (l l' : list Z) : product (l ++ l') = product l * product l'.
Proof.
  unfold product. induction l as [|x l IH]; cbn [app fold_right].
  - now rewrite Z.mul_1_l.
  - now rewrite IH, Z.mul_assoc.
Qed.

Lemma sum_cons (x : Z) (l : list Z) : sum (x :: l) = x + sum l.
Proof. reflexivity. Qed.

Lemma product_cons (x : Z) (l : list Z) : product (x :: l) = x * product l.
Proof. reflexivity. Qed.

Section Value.
Variable atom : Expr -> Z.

Ltac value_step IH :=
  rewrite IH; rewrite ?map_app, ?sum_app, ?product_app; cbn [map];
  rewrite ?sum_cons, ?product_cons; change (sum []) with 0; change (product []) with 1;
  cbn [eval]; try lia; try ring.

Lemma fold_secArg_add_value (secArgs args : list Expr) (k : Z) :
  sum (map (eval atom) (fst (fold_left (fold_secArg Z.add) secArgs (args, k))))
  + snd (fold_left (fold_secArg Z.add) secArgs (args, k))
  = sum (map (eval atom) args) + k + sum (map (eval atom) secArgs).
Proof.
  revert args k. induction secArgs as [|x l IH]; intros args k.
  - cbn [fold_left fst snd map]. change (sum []) with 0. lia.
  - cbn [fold_left].
    destruct x as [| [v|] ? | | | | | | | | | | ]; cbn [fold_secArg];
      value_step IH.
Qed.

Lemma fold_secArg_mul_value (secArgs args : list Expr) (k : Z) :
  product (map (eval atom) (fst (fold_left (fold_secArg Z.mul) secArgs (args, k))))
  * snd (fold_left (fold_secArg Z.mul) secArgs (args, k))
  = product (map (eval atom) args) * k * product (map (eval atom) secArgs).
Proof.
  revert args k. induction secArgs as [|x l IH]; intros args k.
  - cbn [fold_left fst snd map]. change (product []) with 1. ring.
  - cbn [fold_left].
    destruct x as [| [v|] ? | | | | | | | | | | ]; cbn [fold_secArg];
      value_step IH.
Qed.

Lemma Add_loop_value (sargs args : list Expr) (k : Z) :
  sum (map (eval atom) (fst (fold_left Add_fold_arg sargs (args, k))))
  + snd (fold_left Add_fold_arg sargs (args, k))
  = sum (map (eval atom) args) + k + sum (map (eval atom) sargs).
Proof.
  revert args k. induction sargs as [|x l IH]; intros args k.
  - cbn [fold_left fst snd map]. change (sum []) with 0. lia.
  - cbn [fold_left].
    destruct x as [| [v|] ? | secArgs | | | | | | | | | ]; cbn [Add_fold_arg];
      try value_step IH.
    pose proof (fold_secArg_add_value secArgs args k) as Hs.
    destruct (fold_left (fold_secArg Z.add) secArgs (args, k)) as [args' k'].
    cbn [fst snd] in Hs. rewrite IH. cbn [map]. rewrite sum_cons.
    cbn [eval]. lia.
Qed.

Lemma Mul_loop_value (sargs args : list Expr) (k : Z) :
  product (map (eval atom) (fst (fold_left Mul_fold_arg sargs (args, k))))
  * snd (fold_left Mul_fold_arg sargs (args, k))
  = product (map (eval atom) args) * k * product (map (eval atom) sargs).
Proof.
  revert args k. induction sargs as [|x l IH]; intros args k.
  - cbn [fold_left fst snd map]. change (product []) with 1. ring.
  - cbn [fold_left].
    destruct x as [| [v|] ? | | secArgs | | | | | | | | ]; cbn [Mul_fold_arg];
      try value_step IH.
    pose proof (fold_secArg_mul_value secArgs args k) as Hs.
    destruct (fold_left (fold_secArg Z.mul) secArgs (args, k)) as [args' k'].
    cbn [fst snd] in Hs. rewrite IH. cbn [map]. rewrite product_cons.
    cbn [eval]. rewrite Hs. ring.
Qed.

Lemma Add_simplified_value (sargs : list Expr) :
  eval atom (Add_simplified sargs) = sum (map (eval atom) sargs).
Proof.
  unfold Add_simplified.
  pose proof (Add_loop_value sargs [] 0) as H.
  destruct (fold_left Add_fold_arg sargs ([], 0)) as [args k].
  cbn [fst snd map] in H. change (sum []) with 0 in H.
  assert (E : sum (map (eval atom)
                 (if k =? 0 then args else args ++ [Const (Some k) None]))
              = sum (map (eval atom) sargs)).
  { destruct (k =? 0) eqn:Ek.
    - apply Z.eqb_eq in Ek. lia.
    - rewrite map_app, sum_app. cbn [map eval]. rewrite sum_cons. change (sum []) with 0. lia. }
  destruct (if k =? 0 then args else args ++ [Const (Some k) None])
    as [|x [|y r]]; rewrite <- E.
  - reflexivity.
  - cbn [map]. rewrite sum_cons. change (sum []) with 0. lia.
  - reflexivity.
Qed.

Lemma Mul_simplified_value (sargs : list Expr) :
  eval atom (Mul_simplified sargs) = product (map (eval atom) sargs).
Proof.
  unfold Mul_simplified.
  pose proof (Mul_loop_value sargs [] 1) as H.
  destruct (fold_left Mul_fold_arg sargs ([], 1)) as [args k].
  cbn [fst snd map] in H. change (product []) with 1 in H.
  destruct (k =? 0) eqn:E0.
  - apply Z.eqb_eq in E0. subst k. cbn [eval]. lia.
  - assert (E : product (map (eval atom)
                   (if k =? 1 then args else args ++ [Const (Some k) None]))
                = product (map (eval atom) sargs)).
    { destruct (k =? 1) eqn:Ek.
      - apply Z.eqb_eq in Ek. subst k. lia.
      - rewrite map_app, product_app. cbn [map eval]. rewrite product_cons.
        change (product []) with 1. lia. }
    destruct (if k =? 1 then args else args ++ [Const (Some k) None])
      as [|x [|y r]]; rewrite <- E.
    + reflexivity.
    + cbn [map]. rewrite product_cons. change (product []) with 1. lia.
    + reflexivity.
Qed.

(** X1: the pass preserves the value of a tree, read as an integer: sums
    as sums, products as products, valued constants as their values, and
    every other node as any integer one likes. *)
Theorem simplified_value (e : Expr) : eval atom (simplified e) = eval atom e.
Proof.
  induction e as [ | | l IH | l IH | | | | | | | | ] using Expr_ind;
    try reflexivity; cbn [simplified eval].
  - rewrite Add_simplified_value, map_map. f_equal. apply map_ext_Forall, IH.
  - rewrite Mul_simplified_value, map_map. f_equal. apply map_ext_Forall, IH.
Qed.
End Value.

(* ================================================================= *)
(** * Constant folding and the shape of the results *)
(* ================================================================= *)

Lemma Add_fold_arg_constants (l : list Z) (args : list Expr) (k : Z) :
  fold_left Add_fold_arg (map New.Const l) (args, k) = (args, k + sum l).
Proof.
  revert k. induction l as [|n l IH]; intros k; cbn [map fold_left].
  - change (sum []) with 0. now rewrite Z.add_0_r.
  - cbn [New.Const Add_fold_arg]. fold (New.Const n).
    rewrite IH, sum_cons. f_equal. lia.
Qed.

Lemma Mul_fold_arg_constants (l : list Z) (args : list Expr) (k : Z) :
  fold_left Mul_fold_arg (map New.Const l) (args, k) = (args, k * product l).
Proof.
  revert k. induction l as [|n l IH]; intros k; cbn [map fold_left].
  - change (product []) with 1. now rewrite Z.mul_1_r.
  - cbn [New.Const Mul_fold_arg].
    rewrite IH, product_cons. f_equal. ring.
Qed.

(** X2: a sum of valued constants simplifies to the constant of their
    sum, and a product of valued constants to the constant of their
    product, whatever their number; an empty sum gives [Const(0)] and an
    empty product [Const(1)]. *)
Theorem constant_folding (l : list Z) :
  simplified (New.Add (map Num l)) = New.Const (sum l)
  /\ simplified (New.Mul (map Num l)) = New.Const (product l).
Proof.
  assert (Hp : map promote (map Num l) = map New.Const l)
    by (rewrite map_map; reflexivity).
  assert (Hs : map simplified (map New.Const l) = map New.Const l)
    by (rewrite map_map; reflexivity).
  split; cbn [New.Add New.Mul simplified]; rewrite Hp, Hs.
  - unfold Add_simplified. rewrite Add_fold_arg_constants, Z.add_0_l.
    destruct (sum l =? 0) eqn:E; [| reflexivity].
    apply Z.eqb_eq in E. now rewrite E.
  - unfold Mul_simplified. rewrite Mul_fold_arg_constants, Z.mul_1_l.
    destruct (product l =? 0) eqn:E0.
    + apply Z.eqb_eq in E0. now rewrite E0.
    + destruct (product l =? 1) eqn:E1; [| reflexivity].
      apply Z.eqb_eq in E1. now rewrite E1.
Qed.

(** X3: when the pass returns a sum, that sum has at least two
    arguments, none of them a sum, and no valued constant among them but
    possibly the last one, which is then not zero; one level of
    flattening leaves no sum directly below a sum. *)
Theorem simplified_Add_is_flat (e : Expr) (l : list Expr) :
  simplified e = Add l ->
  (2 <= List.length l)%nat
  /\ Forall (fun t => is_Add t = false) l
  /\ exists (terms : list Expr) (const : Z),
       l = terms ++ tail_const 0 const /\ Forall (fun t => valued t = false) terms.
Proof.
  intros E. pose proof (simplified_normal e) as Hn. rewrite E in Hn.
  inversion Hn as [terms c Hnt Hct Hlen Heq | | e' Ha _ Heq]; subst;
    [| discriminate Ha].
  split; [assumption | split].
  - apply Forall_app. split.
    + revert Hct. apply Forall_impl. tauto.
    + unfold tail_const. destruct (c =? 0); repeat constructor.
  - exists terms, c. split; [reflexivity|].
    revert Hct. apply Forall_impl. tauto.
Qed.

Lemma simplified_Add_is_flat_witness :
  simplified (Add [Add [Var "x"; Const (Some 1) None]; Add [Var "y"; Const (Some 2) None]])
  = Add [Var "x"; Var "y"; Const (Some 3) None]
  /\ Forall (fun t => is_Add t = false) [Var "x"; Var "y"; Const (Some 3) None].
Proof.
  split; [reflexivity|].
  apply (simplified_Add_is_flat
           (Add [Add [Var "x"; Const (Some 1) None]; Add [Var "y"; Const (Some 2) None]])).
  reflexivity.
Defined.

(** X4: when the pass returns a product, that product has at least two
    arguments, none of them a product, and no valued constant among them
    but possibly the last one, which is then neither zero nor one. *)
Theorem simplified_Mul_is_flat (e : Expr) (l : list Expr) :
  simplified e = Mul l ->
  (2 <= List.length l)%nat
  /\ Forall (fun t => is_Mul t = false) l
  /\ exists (terms : list Expr) (const : Z),
       l = terms ++ tail_const 1 const /\ const <> 0
       /\ Forall (fun t => valued t = false) terms.
Proof.
  intros E. pose proof (simplified_normal e) as Hn. rewrite E in Hn.
  inversion Hn as [| terms c Hnt Hct Hnz Hlen Heq | e' _ Hm Heq]; subst;
    [| discriminate Hm].
  split; [assumption | split].
  - apply Forall_app. split.
    + revert Hct. apply Forall_impl. tauto.
    + unfold tail_const. destruct (c =? 1); repeat constructor.
  - exists terms, c. split; [reflexivity | split; [assumption|]].
    revert Hct. apply Forall_impl. tauto.
Qed.

Lemma simplified_Mul_is_flat_witness :
  simplified (Mul [Mul [Var "x"; Const (Some 2) None]; Mul [Var "y"; Const (Some 3) None]])
  = Mul [Var "x"; Var "y"; Const (Some 6) None]
  /\ Forall (fun t => is_Mul t = false) [Var "x"; Var "y"; Const (Some 6) None].
Proof.
  split; [reflexivity|].
  apply (simplified_Mul_is_flat
           (Mul [Mul [Var "x"; Const (Some 2) None]; Mul [Var "y"; Const (Some 3) None]])).
  reflexivity.
Defined.

(** X5: a sum of two or more variables is returned as it is; equal terms
    are not collected. *)
Theorem sum_of_variables_unchanged (names : list string) :
  (2 <= List.length names)%nat ->
  simplified (Add (map Var names)) = Add (map Var names).
Proof.
  intros Hlen. apply normal_stable.
  rewrite <- (app_nil_r (map Var names)).
  change (@nil Expr) with (tail_const 0 0).
  apply normal_Add.
  - apply Forall_map, Forall_forall. intros n _. now apply normal_other.
  - apply Forall_map, Forall_forall. intros n _. now split.
  - change (tail_const 0 0) with (@nil Expr).
    now rewrite app_nil_r, length_map.
Qed.

Lemma sum_of_variables_unchanged_witness :
  (2 <= List.length ["x"; "x"]%string)%nat
  /\ simplified (Add [Var "x"; Var "x"]) = Add [Var "x"; Var "x"].
Proof.
  split; [simpl; lia | apply (sum_of_variables_unchanged ["x"; "x"]%string); simpl; lia].
Defined.

(* ================================================================= *)
(** * Dependencies *)
(* ================================================================= *)

Lemma in_union_fold (f : Expr -> list Expr) (l : list Expr) (deps : list Expr) (x : Expr) :
  In x (fold_left (fun deps arg => deps ++ f arg) l deps)
  <-> In x deps \/ exists a, In a l /\ In x (f a).
Proof.
  revert deps. induction l as [|a l IH]; intros deps; cbn [fold_left].
  - split; [auto | intros [H | (a & [] & _)]; exact H].
  - rewrite IH, in_app_iff. split.
    + intros [[H | H] | (b & Hb & H)]; eauto.
      * right. exists a. split; [now left | exact H].
      * right. exists b. split; [now right | exact H].
    + intros [H | (b & [<- | Hb] & H)]; eauto.
Qed.

(** A variable is in the dependencies of a node that is not a [Var] when
    it is in those of one of its arguments. *)
Lemma in_dependencies (e x : Expr) :
  In x (dependencies e)
  <-> match e with
      | Var _ => x = e
      | _ => exists a, In a (arguments e) /\ In x (dependencies a)
      end.
Proof.
  destruct e; cbn [dependencies arguments];
    try (rewrite in_union_fold; split; [intros [[] | H]; exact H | auto]).
  split; [intros [H | []]; auto | intros ->; now left].
Qed.

Lemma in_dependencies_composite (e x : Expr) :
  class_of e <> CVar ->
  In x (dependencies e) <-> exists a, In a (arguments e) /\ In x (dependencies a).
Proof.
  intros H. rewrite in_dependencies. destruct e; try reflexivity.
  now contradiction H.
Qed.

(** X6: the set that [dependencies] returns holds [Var] nodes only. *)
Theorem dependencies_are_variables (e : Expr) :
  Forall (fun x => class_of x = CVar) (dependencies e).
Proof.
  apply Forall_forall.
  induction e as [e IH] using Expr_args_ind. intros x Hx.
  rewrite in_dependencies in Hx. rewrite Forall_forall in IH.
  destruct e; try (destruct Hx as (a & Ha & Hx); exact (IH a Ha x Hx)).
  now subst x.
Qed.

Lemma in_dependencies_flat (e x : Expr) :
  class_of e <> CVar ->
  In x (dependencies e) <-> In x (flat_map dependencies (arguments e)).
Proof.
  intros H. now rewrite in_dependencies_composite, in_flat_map.
Qed.

Lemma fold_secArg_dependencies (op : Z -> Z -> Z) (secArgs args : list Expr) (k : Z) (x : Expr) :
  In x (flat_map dependencies (fst (fold_left (fold_secArg op) secArgs (args, k)))) ->
  In x (flat_map dependencies args) \/ In x (flat_map dependencies secArgs).
Proof.
  revert args k. induction secArgs as [|a l IH]; intros args k; cbn [fold_left].
  - auto.
  - destruct a as [| [v|] ? | | | | | | | | | | ]; cbn [fold_secArg];
      intros H; apply IH in H;
      rewrite ?flat_map_app, ?in_app_iff in H;
      cbn [flat_map] in *; rewrite ?app_nil_r, ?in_app_iff in *; tauto.
Qed.

Lemma Add_loop_dependencies (sargs args : list Expr) (k : Z) (x : Expr) :
  In x (flat_map dependencies (fst (fold_left Add_fold_arg sargs (args, k)))) ->
  In x (flat_map dependencies args) \/ In x (flat_map dependencies sargs).
Proof.
  revert args k. induction sargs as [|a l IH]; intros args k; cbn [fold_left].
  - auto.
  - destruct a as [| [v|] ? | secArgs | | | | | | | | | ]; cbn [Add_fold_arg];
      try (intros H; apply IH in H;
           rewrite ?flat_map_app, ?in_app_iff in H;
           cbn [flat_map] in *; rewrite ?app_nil_r, ?in_app_iff in *; tauto).
    pose proof (fold_secArg_dependencies Z.add secArgs args k x) as Hs.
    destruct (fold_left (fold_secArg Z.add) secArgs (args, k)) as [args' k'].
    cbn [fst] in Hs. intros H. apply IH in H.
    cbn [flat_map]. rewrite in_app_iff.
    rewrite (in_dependencies_flat (Add secArgs)) by discriminate.
    cbn [arguments]. tauto.
Qed.

Lemma Mul_loop_dependencies (sargs args : list Expr) (k : Z) (x : Expr) :
  In x (flat_map dependencies (fst (fold_left Mul_fold_arg sargs (args, k)))) ->
  In x (flat_map dependencies args) \/ In x (flat_map dependencies sargs).
Proof.
  revert args k. induction sargs as [|a l IH]; intros args k; cbn [fold_left].
  - auto.
  - destruct a as [| [v|] ? | | secArgs | | | | | | | | ]; cbn [Mul_fold_arg];
      try (intros H; apply IH in H;
           rewrite ?flat_map_app, ?in_app_iff in H;
           cbn [flat_map] in *; rewrite ?app_nil_r, ?in_app_iff in *; tauto).
    pose proof (fold_secArg_dependencies Z.mul secArgs args k x) as Hs.
    destruct (fold_left (fold_secArg Z.mul) secArgs (args, k)) as [args' k'].
    cbn [fst] in Hs. intros H. apply IH in H.
    cbn [flat_map]. rewrite in_app_iff.
    rewrite (in_dependencies_flat (Mul secArgs)) by discriminate.
    cbn [arguments]. tauto.
Qed.

(** What the last lines of both methods return depends on no more than
    the terms kept in [args]. *)
Lemma finish_dependencies (args tail : list Expr) (z : Expr) (mk : list Expr -> Expr) (x : Expr) :
  dependencies z = [] ->
  flat_map dependencies tail = [] ->
  (forall l, In x (dependencies (mk l)) -> In x (flat_map dependencies l)) ->
  In x (dependencies match args ++ tail with
                     | [] => z
                     | [y] => y
                     | _ => mk (args ++ tail)
                     end) ->
  In x (flat_map dependencies args).
Proof.
  intros Hz Ht Hmk H.
  assert (Hall : In x (flat_map dependencies (args ++ tail)) ->
                 In x (flat_map dependencies args)).
  { rewrite flat_map_app, Ht, app_nil_r. auto. }
  apply Hall.
  destruct (args ++ tail) as [|y [|y' r]].
  - rewrite Hz in H. destruct H.
  - cbn [flat_map]. now rewrite app_nil_r.
  - now apply Hmk.
Qed.

Lemma tail_const_dependencies (unit k : Z) :
  flat_map dependencies (tail_const unit k) = [].
Proof. unfold tail_const. destruct (k =? unit); reflexivity. Qed.

Lemma Add_simplified_dependencies (sargs : list Expr) (x : Expr) :
  In x (dependencies (Add_simplified sargs)) ->
  In x (flat_map dependencies sargs).
Proof.
  unfold Add_simplified.
  pose proof (Add_loop_dependencies sargs [] 0 x) as H.
  destruct (fold_left Add_fold_arg sargs ([], 0)) as [args k].
  cbn [fst flat_map] in H.
  replace (if k =? 0 then args else args ++ [Const (Some k) None])
    with (args ++ tail_const 0 k)
    by (unfold tail_const; destruct (k =? 0); [apply app_nil_r | reflexivity]).
  intros Hx. apply (finish_dependencies args (tail_const 0 k)) in Hx.
  - destruct (H Hx) as [[] | H']. exact H'.
  - reflexivity.
  - apply tail_const_dependencies.
  - intros l. now rewrite (in_dependencies_flat (Add l)) by discriminate.
Qed.

Lemma Mul_simplified_dependencies (sargs : list Expr) (x : Expr) :
  In x (dependencies (Mul_simplified sargs)) ->
  In x (flat_map dependencies sargs).
Proof.
  unfold Mul_simplified.
  pose proof (Mul_loop_dependencies sargs [] 1 x) as H.
  destruct (fold_left Mul_fold_arg sargs ([], 1)) as [args k].
  cbn [fst flat_map] in H.
  destruct (k =? 0); [intros []|].
  replace (if k =? 1 then args else args ++ [Const (Some k) None])
    with (args ++ tail_const 1 k)
    by (unfold tail_const; destruct (k =? 1); [apply app_nil_r | reflexivity]).
  intros Hx. apply (finish_dependencies args (tail_const 1 k)) in Hx.
  - destruct (H Hx) as [[] | H']. exact H'.
  - reflexivity.
  - apply tail_const_dependencies.
  - intros l. now rewrite (in_dependencies_flat (Mul l)) by discriminate.
Qed.

Lemma flat_map_incl (f g : Expr -> list Expr) (l : list Expr) (x : Expr) :
  Forall (fun a => In x (f a) -> In x (g a)) l ->
  In x (flat_map f l) -> In x (flat_map g l).
Proof.
  rewrite Forall_forall, !in_flat_map. intros H (a & Ha & Hx).
  exists a. auto.
Qed.

(** X7: the pass brings in no variable: every dependency of the
    simplified tree is a dependency of the tree. *)
Theorem simplified_dependencies (e : Expr) :
  incl (dependencies (simplified e)) (dependencies e).
Proof.
  intros x. revert e.
  induction e as [ | | l IH | l IH | | | | | | | | ] using Expr_ind;
    try (intros H; exact H); cbn [simplified]; intros H.
  - apply Add_simplified_dependencies in H.
    rewrite (in_dependencies_flat (Add l)) by discriminate. cbn [arguments].
    rewrite flat_map_concat_map, map_map, <- flat_map_concat_map in H.
    revert H. now apply flat_map_incl.
  - apply Mul_simplified_dependencies in H.
    rewrite (in_dependencies_flat (Mul l)) by discriminate. cbn [arguments].
    rewrite flat_map_concat_map, map_map, <- flat_map_concat_map in H.
    revert H. now apply flat_map_incl.
Qed.

Lemma in_firstn {A : Type} (n : nat) (l : list A) (x : A) :
  In x (firstn n l) -> In x l.
Proof.
  intros H. rewrite <- (firstn_skipn n l). apply in_or_app. now left.
Qed.

Lemma in_skipn {A : Type} (n : nat) (l : list A) (x : A) :
  In x (skipn n l) -> In x l.
Proof.
  intros H. rewrite <- (firstn_skipn n l). apply in_or_app. now right.
Qed.

Lemma promote_Node (l : list Expr) : map promote (map Node l) = l.
Proof. rewrite map_map. apply map_id. Qed.

(** A term of [Mul.derivative] is the product of the arguments with one
    of them replaced by a derivative. *)
Lemma Mul_derivative_term (args : list Expr) (ds : list operand) (t : Expr) :
  In t (arguments (Mul_derivative args ds)) ->
  exists (i : nat) (d : operand),
    In d ds /\ t = Mul (firstn i args ++ [promote d] ++ skipn (S i) args).
Proof.
  unfold Mul_derivative, New.Add. cbn [arguments]. rewrite map_map.
  intros H. apply in_map_iff in H as ([i d] & <- & H).
  exists i, d. split.
  - unfold enumerate in H. now apply in_combine_r in H.
  - cbn [promote]. unfold New.Mul. now rewrite !map_app, !promote_Node.
Qed.

Lemma Mul_derivative_dependencies (args : list Expr) (ds : list operand) (x : Expr) :
  In x (dependencies (Mul_derivative args ds)) ->
  In x (flat_map dependencies args)
  \/ exists d, In d ds /\ In x (dependencies (promote d)).
Proof.
  intros H.
  apply in_dependencies_composite in H as (t & Ht & Hx); [| discriminate].
  apply Mul_derivative_term in Ht as (i & d & Hd & ->).
  apply in_dependencies_composite in Hx as (a & Ha & Hx); [| discriminate].
  cbn [arguments] in Ha. rewrite !in_app_iff in Ha.
  destruct Ha as [Ha | [[<- | []] | Ha]].
  - left. apply in_flat_map. exists a. split; [now apply in_firstn in Ha | exact Hx].
  - right. now exists d.
  - left. apply in_flat_map. exists a. split; [now apply in_skipn in Ha | exact Hx].
Qed.

(** X8: differentiation brings in no variable: every dependency of the
    derivative is a dependency of the tree. *)
Theorem derivative_dependencies (e : Expr) (var_name : string) :
  incl (dependencies (promote (derivative e var_name))) (dependencies e).
Proof.
  intros x. revert e.
  induction e as [ | | l IH | l IH | a b IHa IHb | a b IHa IHb
                 | a IHa | f a IHa | a IHa | a IHa | a IHa | a IHa ]
    using Expr_ind; cbn [derivative promote].
  - intros [].
  - intros [].
  - rewrite !in_dependencies_flat by discriminate. cbn [New.Add arguments].
    rewrite !in_flat_map. intros (t & Ht & Hx).
    rewrite map_map in Ht. apply in_map_iff in Ht as (a & <- & Ha).
    rewrite Forall_forall in IH. exists a. auto.
  - intros H. apply Mul_derivative_dependencies in H.
    rewrite in_dependencies_flat by discriminate. cbn [arguments].
    destruct H as [H | (d & Hd & Hx)]; [exact H|].
    apply in_map_iff in Hd as (a & <- & Ha).
    rewrite Forall_forall in IH. apply in_flat_map. exists a. auto.
  - cbn. rewrite ?app_nil_r, ?in_app_iff. tauto.
  - cbn. rewrite ?app_nil_r, ?in_app_iff. tauto.
  - cbn. rewrite ?app_nil_r, ?in_app_iff. tauto.
  - cbn. rewrite ?app_nil_r, ?in_app_iff. tauto.
  - cbn. rewrite ?app_nil_r, ?in_app_iff. tauto.
  - cbn. rewrite ?app_nil_r, ?in_app_iff. tauto.
  - cbn. rewrite ?app_nil_r, ?in_app_iff. tauto.
  - cbn. rewrite ?app_nil_r, ?in_app_iff. tauto.
Qed.

(* ================================================================= *)
(** * Well-formed trees *)
(* ================================================================= *)

Lemma fold_secArg_well_formed (op : Z -> Z -> Z) (secArgs args : list Expr) (k : Z) :
  forallb well_formed secArgs = true ->
  forallb well_formed args = true ->
  forallb well_formed (fst (fold_left (fold_secArg op) secArgs (args, k))) = true.
Proof.
  revert args k. induction secArgs as [|a l IH]; intros args k; cbn [fold_left forallb].
  - auto.
  - intros Ha Hargs. apply andb_true_iff in Ha as [Ha Hl].
    destruct a as [| [v|] ? | | | | | | | | | | ]; cbn [fold_secArg];
      apply IH; try assumption;
      rewrite forallb_app, Hargs; cbn [forallb]; now rewrite Ha.
Qed.

Lemma Add_loop_well_formed (sargs args : list Expr) (k : Z) :
  forallb well_formed sargs = true ->
  forallb well_formed args = true ->
  forallb well_formed (fst (fold_left Add_fold_arg sargs (args, k))) = true.
Proof.
  revert args k. induction sargs as [|a l IH]; intros args k; cbn [fold_left forallb].
  - auto.
  - intros Ha Hargs. apply andb_true_iff in Ha as [Ha Hl].
    destruct a as [| [v|] ? | secArgs | | | | | | | | | ]; cbn [Add_fold_arg];
      try (apply IH; try assumption;
           rewrite forallb_app, Hargs; cbn [forallb]; now rewrite Ha).
    pose proof (fold_secArg_well_formed Z.add secArgs args k Ha Hargs) as Hs.
    destruct (fold_left (fold_secArg Z.add) secArgs (args, k)) as [args' k'].
    now apply IH.
Qed.

Lemma Mul_loop_well_formed (sargs args : list Expr) (k : Z) :
  forallb well_formed sargs = true ->
  forallb well_formed args = true ->
  forallb well_formed (fst (fold_left Mul_fold_arg sargs (args, k))) = true.
Proof.
  revert args k. induction sargs as [|a l IH]; intros args k; cbn [fold_left forallb].
  - auto.
  - intros Ha Hargs. apply andb_true_iff in Ha as [Ha Hl].
    destruct a as [| [v|] ? | | secArgs | | | | | | | | ]; cbn [Mul_fold_arg];
      try (apply IH; try assumption;
           rewrite forallb_app, Hargs; cbn [forallb]; now rewrite Ha).
    pose proof (fold_secArg_well_formed Z.mul secArgs args k Ha Hargs) as Hs.
    destruct (fold_left (fold_secArg Z.mul) secArgs (args, k)) as [args' k'].
    now apply IH.
Qed.

Lemma finish_well_formed (args : list Expr) (unit k : Z) (mk : list Expr -> Expr) :
  forallb well_formed args = true ->
  (forall l, well_formed (mk l) = forallb well_formed l) ->
  well_formed match args ++ tail_const unit k with
              | [] => Const (Some unit) None
              | [x] => x
              | _ => mk (args ++ tail_const unit k)
              end = true.
Proof.
  intros Hargs Hmk.
  assert (Hall : forallb well_formed (args ++ tail_const unit k) = true).
  { rewrite forallb_app, Hargs. unfold tail_const.
    destruct (k =? unit); reflexivity. }
  destruct (args ++ tail_const unit k) as [|x [|y r]].
  - reflexivity.
  - cbn [forallb] in Hall. now apply andb_true_iff in Hall as [Hx _].
  - now rewrite Hmk.
Qed.

Lemma Add_simplified_well_formed (sargs : list Expr) :
  forallb well_formed sargs = true -> well_formed (Add_simplified sargs) = true.
Proof.
  intros Hs. unfold Add_simplified.
  pose proof (Add_loop_well_formed sargs [] 0 Hs eq_refl) as H.
  destruct (fold_left Add_fold_arg sargs ([], 0)) as [args k].
  replace (if k =? 0 then args else args ++ [Const (Some k) None])
    with (args ++ tail_const 0 k)
    by (unfold tail_const; destruct (k =? 0); [apply app_nil_r | reflexivity]).
  now apply (finish_well_formed args 0 k Add).
Qed.

Lemma Mul_simplified_well_formed (sargs : list Expr) :
  forallb well_formed sargs = true -> well_formed (Mul_simplified sargs) = true.
Proof.
  intros Hs. unfold Mul_simplified.
  pose proof (Mul_loop_well_formed sargs [] 1 Hs eq_refl) as H.
  destruct (fold_left Mul_fold_arg sargs ([], 1)) as [args k].
  destruct (k =? 0); [reflexivity|].
  replace (if k =? 1 then args else args ++ [Const (Some k) None])
    with (args ++ tail_const 1 k)
    by (unfold tail_const; destruct (k =? 1); [apply app_nil_r | reflexivity]).
  now apply (finish_well_formed args 1 k Mul).
Qed.

Lemma forallb_map_well_formed (f : Expr -> Expr) (l : list Expr) :
  Forall (fun a => well_formed a = true -> well_formed (f a) = true) l ->
  forallb well_formed l = true ->
  forallb well_formed (map f l) = true.
Proof.
  induction 1 as [|a l Ha _ IH]; cbn [map forallb]; [auto|].
  intros H. apply andb_true_iff in H as [H1 H2].
  now rewrite Ha, IH.
Qed.

(** X9: the pass keeps trees well formed: when every [Const] of a tree
    has a name or a value, so has every [Const] of the simplified tree. *)
Theorem simplified_well_formed (e : Expr) :
  well_formed e = true -> well_formed (simplified e) = true.
Proof.
  induction e as [ | | l IH | l IH | | | | | | | | ] using Expr_ind;
    try (intros H; exact H); cbn [simplified well_formed]; intros H.
  - apply Add_simplified_well_formed. now apply forallb_map_well_formed.
  - apply Mul_simplified_well_formed. now apply forallb_map_well_formed.
Qed.

Lemma simplified_well_formed_witness :
  well_formed (Add [Const None (Some "pi"%string); Mul [Var "x"; Const (Some 1) None]]) = true
  /\ well_formed (simplified (Add [Const None (Some "pi"%string); Mul [Var "x"; Const (Some 1) None]]))
     = true.
Proof.
  split; [reflexivity | apply simplified_well_formed; reflexivity].
Defined.

Lemma Mul_derivative_well_formed (args : list Expr) (ds : list operand) :
  forallb well_formed args = true ->
  Forall (fun d => well_formed (promote d) = true) ds ->
  well_formed (Mul_derivative args ds) = true.
Proof.
  intros Hargs Hds.
  change (forallb well_formed (arguments (Mul_derivative args ds)) = true).
  apply forallb_forall. intros t Ht.
  apply Mul_derivative_term in Ht as (i & d & Hd & ->).
  cbn [well_formed]. rewrite !forallb_app. cbn [forallb].
  rewrite Forall_forall in Hds. rewrite (Hds d Hd).
  rewrite forallb_forall in Hargs.
  replace (forallb well_formed (firstn i args)) with true
    by (symmetry; apply forallb_forall; intros a Ha; apply Hargs; now apply in_firstn in Ha).
  replace (forallb well_formed (skipn (S i) args)) with true
    by (symmetry; apply forallb_forall; intros a Ha; apply Hargs; now apply in_skipn in Ha).
  reflexivity.
Qed.

(** X10: differentiation keeps trees well formed: the derivative of a well
    formed tree, once a bare number is promoted, is well formed. *)
Theorem derivative_well_formed (e : Expr) (var_name : string) :
  well_formed e = true ->
  well_formed (promote (derivative e var_name)) = true.
Proof.
  induction e as [ | | l IH | l IH | a b IHa IHb | a b IHa IHb
                 | a IHa | f a IHa | a IHa | a IHa | a IHa | a IHa ]
    using Expr_ind; cbn [derivative promote well_formed]; intros H;
    try reflexivity.
  - unfold New.Add. cbn [well_formed]. rewrite map_map.
    now apply forallb_map_well_formed.
  - apply Mul_derivative_well_formed; [assumption|].
    apply Forall_map. rewrite forallb_forall in H.
    rewrite Forall_forall in *. auto.
  - apply andb_true_iff in H as [Ha Hb]. cbn. now rewrite Ha, Hb, IHa, IHb.
  - apply andb_true_iff in H as [Ha Hb]. cbn. now rewrite Ha, Hb, IHa, IHb.
  - cbn. auto.
  - cbn. now rewrite H, IHa.
  - cbn. now rewrite H, IHa.
  - cbn. now rewrite H, IHa.
  - cbn. now rewrite H, IHa.
  - cbn. now rewrite H, IHa.
Qed.

Lemma derivative_well_formed_witness :
  well_formed (Pow (Var "x") (Const (Some 2) None)) = true
  /\ well_formed (promote (derivative (Pow (Var "x") (Const (Some 2) None)) "x")) = true.
Proof.
  split; [reflexivity | apply derivative_well_formed; reflexivity].
Defined.

(** X11: negation never fails on a well formed operand, and its result
    is well formed. *)
Theorem neg_well_formed (e : Expr) :
  well_formed e = true ->
  exists r : Expr, neg e = Some r /\ well_formed r = true.
Proof.
  intros H.
  destruct e as [| [v|] [n|] | | | | | | | | | | ];
    try discriminate H; eexists; (split; [reflexivity | exact H || reflexivity]).
Qed.

Lemma neg_well_formed_witness :
  well_formed (Const (Some 5) None) = true
  /\ exists r : Expr, neg (Const (Some 5) None) = Some r /\ well_formed r = true.
Proof.
  split; [reflexivity | apply neg_well_formed; reflexivity].
Defined.

(* ================================================================= *)
(** * More on equality and rendering *)
(* ================================================================= *)

(** X12: on the pairs where it answers [True], [==] is symmetric and
    transitive. *)
Theorem eq_op_symmetric_transitive (a b c : Expr) :
  eq_op a b = Some true ->
  eq_op b a = Some true
  /\ (eq_op b c = Some true -> eq_op a c = Some true).
Proof.
  unfold eq_op. rewrite !eq_dir_shape. intros E. split; congruence.
Qed.

Lemma eq_op_symmetric_transitive_witness :
  eq_op (Func "+" (Var "x")) (Add [Var "x"]) = Some true
  /\ eq_op (Add [Var "x"]) (Func "+" (Var "x")) = Some true.
Proof.
  split; [reflexivity|].
  apply (eq_op_symmetric_transitive (Func "+" (Var "x")) (Add [Var "x"]) (Var "x")).
  reflexivity.
Defined.

(** X13: the answer of [==] depends on the order of its operands: a
    node that is neither a [Var] nor a [Const], compared with a [Var] or
    a [Const] on its right, answers [False], and the same two nodes
    compared the other way round fail. *)
Theorem eq_op_order_sensitive (a b : Expr) :
  class_of a <> CVar -> class_of a <> CConst ->
  class_of b = CVar \/ class_of b = CConst ->
  eq_op a b = Some false /\ eq_op b a = None.
Proof.
  intros Hv Hc Hb. split.
  - destruct b; cbn [class_of] in Hb; try (destruct Hb; discriminate);
      destruct a as [| | [|x l] | [|x l] | | | | | | | | ];
      try reflexivity; try (now contradiction Hv); now contradiction Hc.
  - apply eq_op_leaf_other_class; [assumption|].
    destruct Hb as [Hb | Hb]; rewrite Hb; auto.
Qed.

Lemma eq_op_order_sensitive_witness :
  eq_op (Add []) (Var "x") = Some false /\ eq_op (Var "x") (Add []) = None.
Proof.
  apply eq_op_order_sensitive; [discriminate | discriminate | left; reflexivity].
Defined.

Lemma str_of_shape (e : Expr) : str e = str_shape (shape_of e).
Proof.
  induction e as [ | | l IH | l IH | | | | | | | | ] using Expr_ind;
    cbn [str shape_of str_shape description map];
    try reflexivity; try congruence;
    rewrite map_map, (map_ext_Forall _ _ IH); reflexivity.
Qed.

(** X14: two nodes whose constants carry [int] values that are not
    [bool]s, or none, and on which [==] answers [True], have the same
    text. *)
Theorem eq_op_same_str (a b : Expr) :
  eq_op a b = Some true -> str a = str b.
Proof.
  intros E. apply eq_dir_shape in E. now rewrite !str_of_shape, E.
Qed.

Lemma eq_op_same_str_witness :
  eq_op (Func "sin" (Var "x")) (Sin (Var "x")) = Some true
  /\ str (Func "sin" (Var "x")) = "(sin, x)"%string
  /\ str (Func "sin" (Var "x")) = str (Sin (Var "x")).
Proof.
  split; [reflexivity | split; [reflexivity|]].
  apply eq_op_same_str. reflexivity.
Defined.

(* ================================================================= *)
(** * More on differentiation *)
(* ================================================================= *)

Lemma nth_error_enumerate_from {A : Type} (l : list A) (start i : nat) :
  nth_error (combine (seq start (List.length l)) l) i
  = option_map (fun d => ((start + i)%nat, d)) (nth_error l i).
Proof.
  revert start i. induction l as [|x l IH]; intros start i; cbn [List.length seq combine].
  - now destruct i.
  - destruct i as [|i]; cbn [nth_error option_map].
    + now rewrite Nat.add_0_r.
    + rewrite IH. now rewrite Nat.add_succ_r.
Qed.

Lemma nth_error_enumerate {A : Type} (l : list A) (i : nat) :
  nth_error (enumerate l) i = option_map (fun d => (i, d)) (nth_error l i).
Proof. unfold enumerate. now rewrite nth_error_enumerate_from. Qed.

Lemma slices_replace_at {A : Type} (l : list A) (i : nat) (a x : A) :
  nth_error l i = Some a ->
  firstn i l ++ [x] ++ skipn (S i) l = replace_at i x l.
Proof.
  revert i. induction l as [|y l IH]; intros [|i] H; try discriminate H.
  - reflexivity.
  - cbn [firstn skipn replace_at app]. f_equal. now apply IH.
Qed.

Lemma Mul_derivative_unfolded (args : list Expr) (ds : list operand) :
  Mul_derivative args ds
  = Add (map (fun '(i, d) => Mul (firstn i args ++ [promote d] ++ skipn (S i) args))
             (enumerate ds)).
Proof.
  unfold Mul_derivative, New.Add. rewrite map_map. f_equal.
  apply map_ext. intros [i d]. cbn [promote]. unfold New.Mul.
  now rewrite !map_app, !promote_Node.
Qed.

(** X15: the derivative of a product of [n] arguments is a sum of [n]
    terms; term [i] is the product with its argument [i] replaced by the
    derivative of that argument, and all others in place. *)
Theorem Mul_derivative_product_rule (l : list Expr) (var_name : string) :
  exists terms : list Expr,
    derivative (Mul l) var_name = Node (Add terms)
    /\ List.length terms = List.length l
    /\ forall (i : nat) (a : Expr),
         nth_error l i = Some a ->
         nth_error terms i
         = Some (Mul (replace_at i (promote (derivative a var_name)) l)).
Proof.
  cbn [derivative]. rewrite Mul_derivative_unfolded.
  eexists. split; [reflexivity | split].
  - unfold enumerate.
    now rewrite length_map, length_combine, length_seq, length_map, Nat.min_id.
  - intros i a Ha.
    rewrite nth_error_map, nth_error_enumerate, nth_error_map, Ha.
    cbn [option_map]. now rewrite (slices_replace_at l i a).
Qed.

(** X16: the derivative of [Pow(a, b)] is the derivative of
    [Exp(Log(a) * b)], that is
    [Exp(Log(a) * b) * (da / a * b + Log(a) * db)] for the derivatives
    [da] of [a] and [db] of [b], whatever [a] is. *)
Theorem Pow_derivative_by_logarithm (a b : Expr) (var_name : string) :
  derivative (Pow a b) var_name
  = derivative (Exp (mul (Log a) (Node b))) var_name
  /\ promote (derivative (Pow a b) var_name)
     = Mul [Exp (Mul [Log a; b]);
            Add [Mul [Div (promote (derivative a var_name)) a; b];
                 Mul [Log a; promote (derivative b var_name)]]].
Proof.
  split; reflexivity.
Qed.

(** X17: the derivatives of the named functions of a variable, once
    simplified: with respect to that variable, [Sin] gives [Cos], [Cos]
    gives the [Neg] of [Sin] and [Exp] gives itself, and with respect to
    another variable all three give [Const(0)]; the quotient that [Log]
    gives is left as it is, be its numerator one or zero. *)
Theorem function_of_variable_derivative (x v : string) :
  let simplified_derivative (e : Expr) := simplified (promote (derivative e v)) in
  simplified_derivative (Sin (Var x))
  = (if String.eqb x v then Cos (Var x) else New.Const 0)
  /\ simplified_derivative (Cos (Var x))
     = (if String.eqb x v then Neg (Sin (Var x)) else New.Const 0)
  /\ simplified_derivative (Exp (Var x))
     = (if String.eqb x v then Exp (Var x) else New.Const 0)
  /\ simplified_derivative (Log (Var x))
     = Div (New.Const (if String.eqb x v then 1 else 0)) (Var x).
Proof.
  cbn. destruct (String.eqb x v); repeat split; reflexivity.
Qed.

(* ================================================================= *)
(** * More on construction and simplification *)
(* ================================================================= *)

(** X18: a difference of two constants is not folded, a sum with a
    negated constant is: [Const(a) - Const(b)] keeps [Neg(Const(b))] as a
    term, while [-Const(b)] is [Const(-b)] and [Const(a) + (-Const(b))]
    simplifies to [Const(a - b)]. *)
Theorem difference_of_constants (a b : Z) :
  simplified (sub (New.Const a) (Node (New.Const b)))
  = (if a =? 0 then Neg (New.Const b)
     else Add [Neg (New.Const b); New.Const a])
  /\ neg (New.Const b) = Some (New.Const (- b))
  /\ simplified (add (New.Const a) (Node (New.Const (- b)))) = New.Const (a - b).
Proof.
  split; [| split; [reflexivity|]].
  - cbn. unfold Add_simplified. cbn. destruct a; reflexivity.
  - cbn [add New.Add New.Const map promote simplified].
    unfold Add_simplified.
    cbn [fold_left Add_fold_arg].
    replace (0 + a + - b) with (a - b) by lia.
    destruct (a - b =? 0) eqn:E; [| reflexivity].
    apply Z.eqb_eq in E. now rewrite E.
Qed.

(** X19: on trees whose constants carry integer values or none, a
    constant of value zero among the arguments of a sum, and a constant of
    value one among those of a product, change nothing to the result,
    wherever they stand and whether they have a name or not. *)
Theorem unit_constant_dropped (l1 l2 : list Expr) (name : option string) :
  simplified (Add (l1 ++ Const (Some 0) name :: l2)) = simplified (Add (l1 ++ l2))
  /\ simplified (Mul (l1 ++ Const (Some 1) name :: l2)) = simplified (Mul (l1 ++ l2)).
Proof.
  split; cbn [simplified]; rewrite !map_app; cbn [map simplified];
    unfold Add_simplified, Mul_simplified; rewrite !fold_left_app;
    cbn [fold_left].
  - destruct (fold_left Add_fold_arg (map simplified l1) ([], 0)) as [a k].
    cbn [Add_fold_arg]. now rewrite Z.add_0_r.
  - destruct (fold_left Mul_fold_arg (map simplified l1) ([], 1)) as [a k].
    cbn [Mul_fold_arg]. now rewrite Z.mul_1_r.
Qed.

(* ================================================================= *)
(** * Flattening *)
(* ================================================================= *)

Section Monoid.
Variable op : Z -> Z -> Z.
Variable unit : Z.
Hypothesis op_unit_l : forall x, op unit x = x.
Hypothesis op_unit_r : forall x, op x unit = x.
Hypothesis op_assoc : forall x y z, op (op x y) z = op x (op y z).

(** The inner loop adds to the state it starts from: the terms it keeps go
    after those already there, and the constant it folds is combined with
    the one already there. *)
Lemma fold_secArg_from (secArgs args : list Expr) (k : Z) :
  fold_left (fold_secArg op) secArgs (args, k)
  = (args ++ fst (fold_left (fold_secArg op) secArgs ([], unit)),
     op k (snd (fold_left (fold_secArg op) secArgs ([], unit)))).
Proof.
  revert args k. induction secArgs as [|a l IH]; intros args k.
  - cbn [fold_left fst snd]. now rewrite app_nil_r, op_unit_r.
  - cbn [fold_left].
    destruct a as [| [v|] ? | | | | | | | | | | ]; cbn [fold_secArg];
      rewrite IH; symmetry; rewrite IH; cbn [fst snd app];
      rewrite ?op_unit_l, ?op_assoc, <- ?app_assoc; reflexivity.
Qed.
End Monoid.

Lemma fold_secArg_add_from (secArgs args : list Expr) (k : Z) :
  fold_left (fold_secArg Z.add) secArgs (args, k)
  = (args ++ fst (fold_left (fold_secArg Z.add) secArgs ([], 0)),
     k + snd (fold_left (fold_secArg Z.add) secArgs ([], 0))).
Proof.
  apply fold_secArg_from; intros; lia.
Qed.

Lemma fold_secArg_mul_from (secArgs args : list Expr) (k : Z) :
  fold_left (fold_secArg Z.mul) secArgs (args, k)
  = (args ++ fst (fold_left (fold_secArg Z.mul) secArgs ([], 1)),
     k * snd (fold_left (fold_secArg Z.mul) secArgs ([], 1))).
Proof.
  apply fold_secArg_from; intros; ring.
Qed.

Lemma Add_fold_arg_from (sargs args : list Expr) (k : Z) :
  fold_left Add_fold_arg sargs (args, k)
  = (args ++ fst (fold_left Add_fold_arg sargs ([], 0)),
     k + snd (fold_left Add_fold_arg sargs ([], 0))).
Proof.
  revert args k. induction sargs as [|a l IH]; intros args k.
  - cbn [fold_left fst snd]. now rewrite app_nil_r, Z.add_0_r.
  - cbn [fold_left].
    destruct a as [| [v|] ? | secArgs | | | | | | | | | ]; cbn [Add_fold_arg];
      try (rewrite IH; symmetry; rewrite IH; cbn [fst snd app];
           rewrite ?Z.add_0_l, ?Z.add_assoc, <- ?app_assoc; reflexivity).
    rewrite (fold_secArg_add_from secArgs args k).
    destruct (fold_left (fold_secArg Z.add) secArgs ([], 0)) as [A K].
    cbn [fst snd]. rewrite (IH (args ++ A) (k + K)), (IH A K). cbn [fst snd].
    f_equal; [now rewrite app_assoc | lia].
Qed.

Lemma Mul_fold_arg_from (sargs args : list Expr) (k : Z) :
  fold_left Mul_fold_arg sargs (args, k)
  = (args ++ fst (fold_left Mul_fold_arg sargs ([], 1)),
     k * snd (fold_left Mul_fold_arg sargs ([], 1))).
Proof.
  revert args k. induction sargs as [|a l IH]; intros args k.
  - cbn [fold_left fst snd]. now rewrite app_nil_r, Z.mul_1_r.
  - cbn [fold_left].
    destruct a as [| [v|] ? | | secArgs | | | | | | | | ]; cbn [Mul_fold_arg];
      try (rewrite IH; symmetry; rewrite IH; cbn [fst snd app];
           rewrite ?Z.mul_1_l, ?Z.mul_assoc, <- ?app_assoc; reflexivity).
    rewrite (fold_secArg_mul_from secArgs args k).
    destruct (fold_left (fold_secArg Z.mul) secArgs ([], 1)) as [A K].
    cbn [fst snd]. rewrite (IH (args ++ A) (k * K)), (IH A K). cbn [fst snd].
    f_equal; [now rewrite app_assoc | ring].
Qed.

Lemma tail_const_if (unit k : Z) (args : list Expr) :
  (if k =? unit then args else args ++ [Const (Some k) None])
  = args ++ tail_const unit k.
Proof.
  unfold tail_const. destruct (k =? unit); [now rewrite app_nil_r | reflexivity].
Qed.

(** The outer loop of [Add.simplified] treats a simplified sum as it
    treats the arguments of that sum, one after the other. *)
Lemma Add_fold_arg_simplified (s args : list Expr) (k : Z) :
  Forall normal s ->
  Add_fold_arg (args, k) (Add_simplified s) = fold_left Add_fold_arg s (args, k).
Proof.
  intros Hs. rewrite (Add_fold_arg_from s args k). unfold Add_simplified.
  destruct (Add_loop_invariant s [] 0 Hs (Forall_nil _) (Forall_nil _))
    as (A & K & -> & Hn & Hc).
  cbn [fst snd]. rewrite tail_const_if.
  assert (Hv : Forall (fun t => valued t = false) A)
    by (revert Hc; apply Forall_impl; tauto).
  destruct (A ++ tail_const 0 K) as [|x [|y r]] eqn:E.
  - apply app_eq_nil in E as [-> E]. unfold tail_const in E.
    destruct (K =? 0) eqn:EK; [| discriminate E].
    apply Z.eqb_eq in EK. subst K. cbn [Add_fold_arg].
    now rewrite app_nil_r.
  - unfold tail_const in E. destruct (K =? 0) eqn:EK.
    + rewrite app_nil_r in E. subst A. apply Z.eqb_eq in EK. subst K.
      rewrite Z.add_0_r.
      exact (Add_fold_arg_terms [x] args k Hc).
    + destruct A as [|a [|a' A]]; try discriminate E.
      injection E as <-. cbn [Add_fold_arg]. now rewrite app_nil_r.
  - rewrite <- E. cbn [Add_fold_arg].
    rewrite fold_left_app, fold_secArg_terms, fold_secArg_tail by assumption.
    f_equal. destruct (K =? 0) eqn:EK; [| reflexivity].
    apply Z.eqb_eq in EK. lia.
Qed.

Lemma Mul_fold_arg_simplified (s args : list Expr) (k : Z) :
  Forall normal s ->
  snd (fold_left Mul_fold_arg s ([], 1)) <> 0 ->
  Mul_fold_arg (args, k) (Mul_simplified s) = fold_left Mul_fold_arg s (args, k).
Proof.
  intros Hs Hnz. rewrite (Mul_fold_arg_from s args k). unfold Mul_simplified.
  destruct (Mul_loop_invariant s [] 1 Hs (Forall_nil _) (Forall_nil _))
    as (A & K & E0 & Hn & Hc).
  rewrite E0 in *. cbn [fst snd] in *.
  destruct (K =? 0) eqn:EZ; [apply Z.eqb_eq in EZ; contradiction|].
  rewrite tail_const_if.
  assert (Hv : Forall (fun t => valued t = false) A)
    by (revert Hc; apply Forall_impl; tauto).
  destruct (A ++ tail_const 1 K) as [|x [|y r]] eqn:E.
  - apply app_eq_nil in E as [-> E]. unfold tail_const in E.
    destruct (K =? 1) eqn:EK; [| discriminate E].
    apply Z.eqb_eq in EK. subst K. cbn [Mul_fold_arg].
    now rewrite app_nil_r.
  - unfold tail_const in E. destruct (K =? 1) eqn:EK.
    + rewrite app_nil_r in E. subst A. apply Z.eqb_eq in EK. subst K.
      rewrite Z.mul_1_r.
      exact (Mul_fold_arg_terms [x] args k Hc).
    + destruct A as [|a [|a' A]]; try discriminate E.
      injection E as <-. cbn [Mul_fold_arg]. now rewrite app_nil_r.
  - rewrite <- E. cbn [Mul_fold_arg].
    rewrite fold_left_app, fold_secArg_terms, fold_secArg_tail by assumption.
    f_equal. destruct (K =? 1) eqn:EK; [| reflexivity].
    apply Z.eqb_eq in EK. subst K. ring.
Qed.

Lemma Forall_normal_simplified (l : list Expr) : Forall normal (map simplified l).
Proof.
  apply Forall_map, Forall_forall. intros x _. apply simplified_normal.
Qed.

Lemma Mul_simplified_zero (s : list Expr) :
  snd (fold_left Mul_fold_arg s ([], 1)) = 0 ->
  Mul_simplified s = Const (Some 0) None.
Proof.
  unfold Mul_simplified. destruct (fold_left Mul_fold_arg s ([], 1)) as [A K].
  cbn [snd]. now intros ->.
Qed.

(** X20: on trees whose constants carry integer values or none, a sum
    directly below a sum, and a product directly below a product, can be
    spliced in: the simplified tree is the one of the flat sum, or of the
    flat product, of all the arguments. *)
Theorem nested_flattened (l0 l1 l2 : list Expr) :
  simplified (Add (l0 ++ Add l1 :: l2)) = simplified (Add (l0 ++ l1 ++ l2))
  /\ simplified (Mul (l0 ++ Mul l1 :: l2)) = simplified (Mul (l0 ++ l1 ++ l2)).
Proof.
  split; cbn [simplified]; rewrite !map_app; cbn [map simplified].
  - pose proof (Forall_normal_simplified l1) as Hn.
    set (r := Add_simplified (map simplified l1)) in *.
    assert (E : fold_left Add_fold_arg (map simplified l0 ++ r :: map simplified l2) ([], 0)
                = fold_left Add_fold_arg
                    (map simplified l0 ++ map simplified l1 ++ map simplified l2) ([], 0)).
    { rewrite !fold_left_app. cbn [fold_left].
      destruct (fold_left Add_fold_arg (map simplified l0) ([], 0)) as [a0 k0].
      subst r. now rewrite Add_fold_arg_simplified. }
    unfold Add_simplified. now rewrite E.
  - pose proof (Forall_normal_simplified l1) as Hn.
    destruct (Z.eq_dec (snd (fold_left Mul_fold_arg (map simplified l1) ([], 1))) 0)
      as [Hz | Hnz].
    + rewrite (Mul_simplified_zero _ Hz).
      rewrite !Mul_simplified_zero; [reflexivity | |].
      * rewrite !fold_left_app.
        destruct (fold_left Mul_fold_arg (map simplified l0) ([], 1)) as [a0 k0].
        rewrite (Mul_fold_arg_from (map simplified l1) a0 k0), Hz, Z.mul_0_r.
        apply Mul_fold_arg_zero.
      * rewrite !fold_left_app. cbn [fold_left].
        destruct (fold_left Mul_fold_arg (map simplified l0) ([], 1)) as [a0 k0].
        cbn [Mul_fold_arg]. rewrite Z.mul_0_r. apply Mul_fold_arg_zero.
    + set (r := Mul_simplified (map simplified l1)) in *.
      assert (E : fold_left Mul_fold_arg (map simplified l0 ++ r :: map simplified l2) ([], 1)
                  = fold_left Mul_fold_arg
                      (map simplified l0 ++ map simplified l1 ++ map simplified l2) ([], 1)).
      { rewrite !fold_left_app. cbn [fold_left].
        destruct (fold_left Mul_fold_arg (map simplified l0) ([], 1)) as [a0 k0].
        subst r. now rewrite Mul_fold_arg_simplified. }
      unfold Mul_simplified. now rewrite E.
Qed.

(** X21: on trees whose constants carry integer values or none, a
    constant of value zero among the arguments of a product, wherever it
    stands and whatever the other arguments are, makes the result
    [Const(0)]. *)
Theorem zero_factor_anywhere (l1 l2 : list Expr) (name : option string) :
  simplified (Mul (l1 ++ Const (Some 0) name :: l2)) = New.Const 0.
Proof.
  cbn [simplified]. rewrite map_app. cbn [map simplified].
  apply Mul_simplified_zero.
  rewrite fold_left_app. cbn [fold_left].
  destruct (fold_left Mul_fold_arg (map simplified l1) ([], 1)) as [a k].
  cbn [Mul_fold_arg]. rewrite Z.mul_0_r. apply Mul_fold_arg_zero.
Qed.

(* ================================================================= *)
(** * Trees with [int] values among the trees with [int] and [float] values *)
(* ================================================================= *)














Lemma description_inject (e : Expr) : Num.description (inject e) = description e.
Proof. now destruct e. Qed.

Lemma arguments_inject (e : Expr) : Num.arguments (inject e) = map inject (arguments e).
Proof. now destruct e. Qed.



(* ================================================================= *)
(** * The laws of the pass and the values of the constants *)
(* ================================================================= *)







